(** * Render log browser: the log-parsing core of [main.py]

    A shallow embedding of [LogBrowserModel] (its five stored attributes,
    [reset_data], [store_raw_log], [extract_regex_match], [parse_log]) and of
    the model-level effect of [MainWindow.set_tabs], [browse_on_click] and
    [browse_on_key_pressed].

    Text.  A Python [str] is a [list ascii]: characters are the code points
    0..255, where the class [\d] of [re] is exactly ['0'..'9'].  Text with
    other characters is outside the model: there [\d] takes every Unicode
    decimal digit.  Python's [None] is [None]; a value that is [None] or a
    [str] is an [option str]; an [int] is a [Z].

    Regular expressions.  [re.search] is modelled by a backtracking matcher
    in continuation-passing style over the constructs the six patterns of
    the module use: literal text, greedy repetition of a one-character
    class, [$], concatenation and capturing groups. *)

From Stdlib Require Import Ascii String DecimalString ZArith List Sorted Permutation Arith
  Bool Lia.
Import ListNotations.

Abbreviation str := (list ascii).
Coercion list_ascii_of_string : string >-> list.

Open Scope string_scope.
Open Scope list_scope.

(** ** Characters and strings *)

Definition newline : ascii := "010"%char.

Definition is_digit (c : ascii) : bool :=
  (48 <=? nat_of_ascii c)%nat && (nat_of_ascii c <=? 57)%nat.

Arguments is_digit : simpl never.

Fixpoint str_eqb (a b : str) : bool :=
  match a, b with
  | [], [] => true
  | x :: a', y :: b' => Ascii.eqb x y && str_eqb a' b'
  | _, _ => false
  end.

(** [s[len(l):]] when [s.startswith(l)]. *)
Fixpoint strip_prefix (l s : str) : option str :=
  match l with
  | [] => Some s
  | x :: l' =>
      match s with
      | y :: s' => if Ascii.eqb x y then strip_prefix l' s' else None
      | [] => None
      end
  end.

(** The text between the start of [s] and the start of its suffix [s']. *)
Definition consumed (s s' : str) : str :=
  firstn (length s - length s') s.

(** ** Regular expressions: the fragment of [re] the module uses *)

(** One-character patterns: a literal character, [\d], and [.] (any
    character but a newline, no DOTALL flag is given). *)
Inductive cset : Type :=
| CChar (c : ascii)
| CDigit
| CAny.

Definition cset_mem (cs : cset) (c : ascii) : bool :=
  match cs with
  | CChar a => Ascii.eqb a c
  | CDigit => is_digit c
  | CAny => negb (Ascii.eqb c newline)
  end.

(** [Rep cs lo hi] is the greedy quantifier [x{lo,hi}] on a one-character
    pattern ([hi = None]: unbounded, so [x*] is [Rep x 0 None] and [x+] is
    [Rep x 1 None]); [Group i r] is the [i]-th capturing group. *)
Inductive regex : Type :=
| Lit (l : str)
| Rep (cs : cset) (lo : nat) (hi : option nat)
| Dollar
| Cat (r1 r2 : regex)
| Group (i : nat) (r : regex).

Notation "r1 +++ r2" := (Cat r1 r2) (at level 61, right associativity).

Fixpoint ngroups (r : regex) : nat :=
  match r with
  | Cat r1 r2 => ngroups r1 + ngroups r2
  | Group _ r1 => S (ngroups r1)
  | _ => 0
  end.

(** Captures: group number and captured text, latest first. *)
Definition caps := list (nat * str).

Fixpoint cap_lookup (i : nat) (g : caps) : option str :=
  match g with
  | [] => None
  | (j, t) :: g' => if (i =? j)%nat then Some t else cap_lookup i g'
  end.

(** [$] without MULTILINE: at the end of the string, or just before the
    newline that ends the string. *)
Definition at_eol (s : str) : bool :=
  match s with
  | [] => true
  | [c] => Ascii.eqb c newline
  | _ => false
  end.

Definition may_take (hi : option nat) : bool :=
  match hi with
  | None => true
  | Some h => (0 <? h)%nat
  end.

(** Greedy repetition: take one more character when allowed, and fall back
    to stopping here when the rest of the pattern fails after it. *)
Fixpoint rep {R : Type} (cs : cset) (lo : nat) (hi : option nat) (s : str)
    (k : str -> option R) : option R :=
  match s with
  | c :: s' =>
      if cset_mem cs c && may_take hi then
        match rep cs (pred lo) (option_map pred hi) s' k with
        | Some res => Some res
        | None => if (lo =? 0)%nat then k s else None
        end
      else if (lo =? 0)%nat then k s else None
  | [] => if (lo =? 0)%nat then k s else None
  end.

(** [mt r s g k]: match [r] at the start of [s] with captures [g], then
    continue with [k] on what is left; [None] when every alternative fails. *)
Fixpoint mt {R : Type} (r : regex) (s : str) (g : caps)
    (k : str -> caps -> option R) : option R :=
  match r with
  | Lit l =>
      match strip_prefix l s with
      | Some s' => k s' g
      | None => None
      end
  | Rep cs lo hi => rep cs lo hi s (fun s' => k s' g)
  | Dollar => if at_eol s then k s g else None
  | Cat r1 r2 => mt r1 s g (fun s' g' => mt r2 s' g' k)
  | Group i r1 => mt r1 s g (fun s' g' => k s' ((i, consumed s s') :: g'))
  end.

(** A match object: the whole match ([group(0)]) and the captures. *)
Definition match_obj : Type := str * caps.

(** The match of [r] that starts at the start of [s], if there is one. *)
Definition match_at (r : regex) (s : str) : option match_obj :=
  mt r s [] (fun s' g => Some (consumed s s', g)).

(** [re.search(r, s)]: the match at the leftmost position that has one. *)
Fixpoint search (r : regex) (s : str) : option match_obj :=
  match match_at r s with
  | Some mo => Some mo
  | None =>
      match s with
      | [] => None
      | _ :: s' => search r s'
      end
  end.

(** ** Exceptions and the state of the model *)

Inductive exn : Type :=
| IndexError           (* match.group(i) with no such group *)
| OSError              (* open() or the read refused by the operating system *)
| UnicodeDecodeError.  (* readlines() on bytes that are not text *)

(** [match.group(i)] for an [int]: the whole match for 0, the group's text
    (or [None] when it did not take part) for a group of the pattern,
    [IndexError] for any other index, a negative one included. *)
Definition group (r : regex) (mo : match_obj) (i : Z) : exn + option str :=
  if (i =? 0)%Z then inr (Some (fst mo))
  else if (0 <? i)%Z && (i <=? Z.of_nat (ngroups r))%Z
       then inr (cap_lookup (Z.to_nat i) (snd mo))
       else inl IndexError.

(** [memory_usage] is a [dict]: keys in insertion order.  A key is whatever
    [extract_regex_match] returned, [None] included. *)
Definition key := option str.
Definition dict := list (key * str).

Definition key_eqb (a b : key) : bool :=
  match a, b with
  | None, None => true
  | Some x, Some y => str_eqb x y
  | _, _ => false
  end.

(** [d.get(k)] *)
Fixpoint dict_get (d : dict) (k : key) : option str :=
  match d with
  | [] => None
  | (k', v) :: d' => if key_eqb k k' then Some v else dict_get d' k
  end.

(** [d[k] = v]: a present key keeps its place, a new one goes last. *)
Fixpoint dict_setitem (d : dict) (k : key) (v : str) : dict :=
  match d with
  | [] => [(k, v)]
  | (k', v') :: d' =>
      if key_eqb k k' then (k', v) :: d' else (k', v') :: dict_setitem d' k v
  end.

Definition keys (d : dict) : list key := map fst d.

Record LogBrowserModel : Type := mkModel {
  raw_log : list str;
  render_time : option str;
  memory_usage : dict;
  warnings : list str;
  errors : list str
}.

(** [LogBrowserModel.__init__] *)
Definition new_model : LogBrowserModel :=
  mkModel [] None [] [] [].

(** A method either returns, or raises and leaves the object as it was at
    that point. *)
Inductive outcome (A : Type) : Type :=
| Return (a : A) (m : LogBrowserModel)
| Raise (e : exn) (m : LogBrowserModel).

Arguments Return {A} a m.
Arguments Raise {A} e m.

Definition M (A : Type) : Type := LogBrowserModel -> outcome A.

Definition ret {A : Type} (a : A) : M A := fun m => Return a m.

Definition bind {A B : Type} (c : M A) (f : A -> M B) : M B :=
  fun m =>
    match c m with
    | Return a m' => f a m'
    | Raise e m' => Raise e m'
    end.

Definition raise {A : Type} (e : exn) : M A := fun m => Raise e m.

Definition lift {A : Type} (x : exn + A) : M A :=
  match x with
  | inr a => ret a
  | inl e => raise e
  end.

Definition gets {A : Type} (f : LogBrowserModel -> A) : M A :=
  fun m => Return (f m) m.

Definition modify (f : LogBrowserModel -> LogBrowserModel) : M unit :=
  fun m => Return tt (f m).

Notation "x <- c ;; k" := (bind c (fun x => k))
  (at level 100, c at next level, right associativity).
Notation "c ;; k" := (bind c (fun _ => k))
  (at level 100, right associativity).

(** The property setters. *)
Definition set_raw_log (v : list str) : M unit :=
  modify (fun m => mkModel v (render_time m) (memory_usage m) (warnings m) (errors m)).
Definition set_render_time (v : option str) : M unit :=
  modify (fun m => mkModel (raw_log m) v (memory_usage m) (warnings m) (errors m)).
Definition set_memory_usage (v : dict) : M unit :=
  modify (fun m => mkModel (raw_log m) (render_time m) v (warnings m) (errors m)).
Definition set_warnings (v : list str) : M unit :=
  modify (fun m => mkModel (raw_log m) (render_time m) (memory_usage m) v (errors m)).
Definition set_errors (v : list str) : M unit :=
  modify (fun m => mkModel (raw_log m) (render_time m) (memory_usage m) (warnings m) v).

(** Python truthiness of a value that is [None] or a [str]. *)
Definition truthy (v : option str) : bool :=
  match v with
  | Some (_ :: _) => true
  | _ => false
  end.

(** ** Constants *)

(** The pieces [\d{2}], [\ +], [\d+] and [.*]. *)
Definition two_digits : regex := Rep CDigit 2 (Some 2).
Definition spaces : regex := Rep (CChar " "%char) 1 None.
Definition digits : regex := Rep CDigit 1 None.
Definition any_text : regex := Rep CAny 0 None.

(** [\d{2}\:\d{2}\:\d{2}] *)
Definition hh_mm_ss : regex :=
  two_digits +++ Lit ":" +++ two_digits +++ Lit ":" +++ two_digits.

(** Line 21: the text [render done in ], group 1 around [.*], then [$]. *)
Definition RENDER_TIME_REGEX : regex :=
  Lit "render done in " +++ Group 1 any_text +++ Dollar.

(** Line 22: [\d{2}\:\d{2}\:\d{2}\ +\d+MB\ +\|] *)
Definition MEMORY_USAGE_REGEX : regex :=
  hh_mm_ss +++ spaces +++ digits +++ Lit "MB" +++ spaces +++ Lit "|".

(** Line 23: group 1 around [\d{2}\:\d{2}\:\d{2}], then [\ +\d+MB]. *)
Definition TIME_ELAPSED_REGEX : regex :=
  Group 1 hh_mm_ss +++ spaces +++ digits +++ Lit "MB".

(** Line 24: [\d{2}\:\d{2}\:\d{2}\ +], then group 1 around [\d+MB]. *)
Definition MEMORY_USAGE_TIME_REGEX : regex :=
  hh_mm_ss +++ spaces +++ Group 1 (digits +++ Lit "MB").

(** Line 25: the text [WARNING], then group 1 around [.*]. *)
Definition WARNING_REGEX : regex :=
  Lit "WARNING" +++ Group 1 any_text.

(** Line 26: the text [ERROR], then group 1 around [.*]. *)
Definition ERROR_REGEX : regex :=
  Lit "ERROR" +++ Group 1 any_text.

(** ** The operating system, as far as the model reads it *)

(** What [open(file_path, 'r')] and [readlines] find at a path:
    - [Missing]: nothing, [os.path.exists] is false and [open] raises
      [OSError];
    - [Unreadable]: something that exists and that the operating system
      refuses to [open], or to the read after it, with an [OSError];
    - [Undecodable]: a file that opens, with bytes that are not text in
      the encoding of [open], so that [readlines] raises
      [UnicodeDecodeError];
    - [Readable]: a file with its decoded text (newlines already
      translated). *)
Inductive file_status : Type :=
| Missing
| Unreadable
| Undecodable
| Readable (content : str).

Record os : Type := mkOs {
  fs : str -> file_status;
  (** the extension [os.path.splitext(p)[1]] *)
  splitext_ext : str -> str
}.

(** [os.path.exists] *)
Definition path_exists (w : os) (p : str) : bool :=
  match fs w p with
  | Missing => false
  | _ => true
  end.

(** [file.readlines()]: every line keeps its newline; the last line has
    one only if the text ends with one. *)
Fixpoint readlines (s : str) : list str :=
  match s with
  | [] => []
  | c :: s' =>
      if Ascii.eqb c newline then [c] :: readlines s'
      else
        match readlines s' with
        | [] => [[c]]
        | l :: ls => (c :: l) :: ls
        end
  end.

(** ** LogBrowserModel *)

Definition reset_data : M unit :=
  set_raw_log [] ;;
  set_render_time None ;;
  set_memory_usage [] ;;
  set_warnings [] ;;
  set_errors [].

(** Whatever is raised, by [open] or by [readlines], is raised before
    [raw_log] is assigned. [UnicodeDecodeError] is not an [OSError]. *)
Definition store_raw_log (w : os) (file_path : str) : M unit :=
  match fs w file_path with
  | Missing | Unreadable => raise OSError
  | Undecodable => raise UnicodeDecodeError
  | Readable content => set_raw_log (readlines content)
  end.

(** A static method: no state, and [None] when nothing matches. *)
Definition extract_regex_match (regex : regex) (string : str) (group_index : Z)
    : exn + option str :=
  match search regex string with
  | Some mo => group regex mo group_index
  | None => inr None
  end.

(** The body of the loop of [parse_log], for one line. *)
Definition parse_line (line : str) : M unit :=
  (* Look for render time *)
  render_time' <- lift (extract_regex_match RENDER_TIME_REGEX line 1) ;;
  (if truthy render_time' then set_render_time render_time' else ret tt) ;;
  (* Gather memory usage *)
  memory_usage' <- lift (extract_regex_match MEMORY_USAGE_REGEX line 0) ;;
  match memory_usage' with
  | Some ((_ :: _) as mu) =>
      time_elapsed <- lift (extract_regex_match TIME_ELAPSED_REGEX mu 1) ;;
      d <- gets memory_usage ;;
      if negb (truthy (dict_get d time_elapsed)) then
        memory_usage_time <- lift (extract_regex_match MEMORY_USAGE_TIME_REGEX mu 1) ;;
        match memory_usage_time with
        | Some ((_ :: _) as v) =>
            d' <- gets memory_usage ;;
            set_memory_usage (dict_setitem d' time_elapsed v)
        | _ => ret tt
        end
      else ret tt
  | _ => ret tt
  end ;;
  (* Look for warnings *)
  warning <- lift (extract_regex_match WARNING_REGEX line 0) ;;
  match warning with
  | Some ((_ :: _) as w) =>
      ws <- gets warnings ;;
      set_warnings (ws ++ [w])
  | _ => ret tt
  end ;;
  (* Look for errors *)
  error <- lift (extract_regex_match ERROR_REGEX line 0) ;;
  match error with
  | Some ((_ :: _) as e) =>
      es <- gets errors ;;
      set_errors (es ++ [e])
  | _ => ret tt
  end.

Fixpoint for_each (lines : list str) : M unit :=
  match lines with
  | [] => ret tt
  | line :: rest => parse_line line ;; for_each rest
  end.

(** [for line in self.raw_log: ...]; the loop never assigns [raw_log]. *)
Definition parse_log : M unit :=
  lines <- gets raw_log ;;
  for_each lines.

(** ** MainWindow, as far as it acts on the model *)

Definition clean_window_and_stored_data : M unit :=
  reset_data.

Definition set_tabs (w : os) (file_path : str) : M unit :=
  store_raw_log w file_path ;;
  parse_log.

Definition browse_on_key_pressed (w : os) (file_path : str) : M unit :=
  clean_window_and_stored_data ;;
  if negb (path_exists w file_path && str_eqb (splitext_ext w file_path) ".log")
  then ret tt
  else set_tabs w file_path.

(** [selected] is [file_paths[0]], empty when the dialog is cancelled. *)
Definition browse_on_click (w : os) (selected : str) : M unit :=
  clean_window_and_stored_data ;;
  match selected with
  | [] => ret tt
  | _ => set_tabs w selected
  end.

(** The parse of a sequence of lines, as both callers run it on the
    long-lived model: reset, store the lines as the raw log, parse. *)
Definition parse (lines : list str) : M unit :=
  reset_data ;;
  set_raw_log lines ;;
  parse_log.

(** The four parsed attributes of the model. *)
Definition parse_result (m : LogBrowserModel)
    : option str * dict * list str * list str :=
  (render_time m, memory_usage m, warnings m, errors m).

(** ** The vocabulary of the specification *)

(** [marker] occurs somewhere in [line]. *)
Definition contains (marker line : str) : Prop :=
  exists pre rest, line = pre ++ marker ++ rest.

(** [pre] is what stands before the first occurrence of [marker] in
    [line], and [rest] what follows it. *)
Definition first_occurrence (marker line pre rest : str) : Prop :=
  line = pre ++ marker ++ rest /\
  forall pre' rest', line = pre' ++ marker ++ rest' -> length pre <= length pre'.

(** The text up to the end of the line: the first newline, or the end. *)
Fixpoint up_to_eol (s : str) : str :=
  match s with
  | [] => []
  | c :: s' => if Ascii.eqb c newline then [] else c :: up_to_eol s'
  end.

(** The entries one marker collects from the lines of a log: one per line
    that contains it, from its first occurrence to the end of the line. *)
Inductive collects (marker : str) : list str -> list str -> Prop :=
| collects_nil : collects marker [] []
| collects_skip : forall line lines entries,
    ~ contains marker line ->
    collects marker lines entries ->
    collects marker (line :: lines) entries
| collects_take : forall line pre rest lines entries,
    first_occurrence marker line pre rest ->
    collects marker lines entries ->
    collects marker (line :: lines) ((marker ++ up_to_eol rest) :: entries).

Definition render_marker : str := "render done in ".

(** After [pre], [line] reads "render done in ", then [tail], then the end
    of the line. *)
Definition render_line_at (line pre tail : str) : Prop :=
  exists e,
    line = pre ++ render_marker ++ tail ++ e /\
    ~ In newline tail /\
    (e = [] \/ e = [newline]).

(** [tail] is the tail of the leftmost such reading of [line]. *)
Definition render_tail (line tail : str) : Prop :=
  exists pre,
    render_line_at line pre tail /\
    forall pre' tail', render_line_at line pre' tail' -> length pre <= length pre'.

Definition all_digits (t : str) : Prop :=
  t <> [] /\ Forall (fun c => is_digit c = true) t.

Definition all_spaces (t : str) : Prop :=
  t <> [] /\ Forall (fun c => c = " "%char) t.

(** [HH:MM:SS] *)
Definition time_label (t : str) : Prop :=
  exists a b c d e f,
    t = [a; b; ":"%char; c; d; ":"%char; e; f] /\
    is_digit a = true /\ is_digit b = true /\
    is_digit c = true /\ is_digit d = true /\
    is_digit e = true /\ is_digit f = true.

(** Eight characters, the third and the sixth a colon. *)
Definition label_shaped (t : str) : Prop :=
  exists a b c d e f, t = [a; b; ":"%char; c; d; ":"%char; e; f].

(** ASCII text: there the class [\d] of Python is ['0'..'9'] as well. *)
Definition ascii_text (s : str) : Prop :=
  Forall (fun c => nat_of_ascii c < 128) s.

(** After [pre], [line] reads [HH:MM:SS], spaces, [<digits>MB], spaces and
    a pipe; [t] is the time label and [mb] the usage label. *)
Definition sample_at (line pre t mb : str) : Prop :=
  exists sp1 ds sp2 post,
    line = pre ++ t ++ sp1 ++ ds ++ "MB" ++ sp2 ++ "|" ++ post /\
    time_label t /\ all_spaces sp1 /\ all_digits ds /\ all_spaces sp2 /\
    mb = ds ++ "MB".

(** The leftmost sample of [line]. *)
Definition first_sample (line t mb : str) : Prop :=
  exists pre,
    sample_at line pre t mb /\
    forall pre' t' mb', sample_at line pre' t' mb' -> length pre <= length pre'.

(** [a] is an initial segment of [b]: nothing of [a] was removed or moved. *)
Definition extends {A : Type} (a b : list A) : Prop :=
  exists c, b = a ++ c.

(** The pairs of a list that come first for their key, in order. *)
Fixpoint first_wins (seen : list key) (ps : list (key * str)) : dict :=
  match ps with
  | [] => []
  | (k, v) :: ps' =>
      if existsb (key_eqb k) seen then first_wins seen ps'
      else (k, v) :: first_wins (k :: seen) ps'
  end.

(** A line without its final newline, if it has one. *)
Fixpoint chomp (s : str) : str :=
  match s with
  | [] => []
  | c :: s' =>
      match s' with
      | [] => if Ascii.eqb c newline then [] else [c]
      | _ :: _ => c :: chomp s'
      end
  end.

Definition is_space_or_newline (c : ascii) : bool :=
  Ascii.eqb c " "%char || Ascii.eqb c newline.

(** A line without its trailing spaces and newlines. *)
Fixpoint rstrip (s : str) : str :=
  match s with
  | [] => []
  | c :: s' =>
      match rstrip s' with
      | [] => if is_space_or_newline c then [] else [c]
      | t => c :: t
      end
  end.

(** ** Auxiliary functions for the proofs *)

(** The longest initial run of characters of a class, and what follows. *)
Fixpoint span (cs : cset) (s : str) : str * str :=
  match s with
  | [] => ([], [])
  | c :: s' =>
      if cset_mem cs c then (c :: fst (span cs s'), snd (span cs s'))
      else ([], s)
  end.

(** The value [extract_regex_match] returns when it does not raise. *)
Definition found (r : regex) (s : str) (i : nat) : option str :=
  match search r s with
  | Some mo => if (i =? 0)%nat then Some (fst mo) else cap_lookup i (snd mo)
  | None => None
  end.

(** The pair a line offers to [memory_usage], whatever is stored already. *)
Definition line_sample (line : str) : option (key * str) :=
  match found MEMORY_USAGE_REGEX line 0 with
  | Some ((_ :: _) as mu) =>
      match found MEMORY_USAGE_TIME_REGEX mu 1 with
      | Some ((_ :: _) as v) => Some (found TIME_ELAPSED_REGEX mu 1, v)
      | _ => None
      end
  | _ => None
  end.

(** The entry a line adds to [warnings] or [errors]. *)
Definition line_entry (r : regex) (line : str) : list str :=
  match found r line 0 with
  | Some ((_ :: _) as w) => [w]
  | _ => []
  end.

Definition step_render (line : str) (old : option str) : option str :=
  if truthy (found RENDER_TIME_REGEX line 1)
  then found RENDER_TIME_REGEX line 1
  else old.

Definition step_memory (line : str) (d : dict) : dict :=
  match line_sample line with
  | Some (k, v) => if truthy (dict_get d k) then d else dict_setitem d k v
  | None => d
  end.

(** The effect of [parse_line] on the model. *)
Definition step (line : str) (m : LogBrowserModel) : LogBrowserModel :=
  mkModel (raw_log m)
          (step_render line (render_time m))
          (step_memory line (memory_usage m))
          (warnings m ++ line_entry WARNING_REGEX line)
          (errors m ++ line_entry ERROR_REGEX line).

Definition run (lines : list str) (m : LogBrowserModel) : LogBrowserModel :=
  fold_left (fun m' line => step line m') lines m.

(** A pattern that can never take a newline. *)
Fixpoint nl_free (r : regex) : bool :=
  match r with
  | Lit l => negb (existsb (Ascii.eqb newline) l)
  | Rep cs _ _ => negb (cset_mem cs newline)
  | Dollar => true
  | Cat r1 r2 => nl_free r1 && nl_free r2
  | Group _ r1 => nl_free r1
  end.

(** The text a line has no newline at its end. *)
Definition no_final_newline (s : str) : Prop :=
  forall t, s <> t ++ [newline].

(** [HH:MM:SS] at the start of [s]. *)
Definition take2 (s : str) : option (str * str) :=
  match s with
  | a :: b :: t => if is_digit a && is_digit b then Some ([a; b], t) else None
  | _ => None
  end.

Definition take_label (s : str) : option (str * str) :=
  match take2 s with
  | Some (h, s1) =>
      match strip_prefix ":" s1 with
      | Some s2 =>
          match take2 s2 with
          | Some (m, s3) =>
              match strip_prefix ":" s3 with
              | Some s4 =>
                  match take2 s4 with
                  | Some (sec, s5) => Some (h ++ ":" ++ m ++ ":" ++ sec, s5)
                  | None => None
                  end
              | None => None
              end
          | None => None
          end
      | None => None
      end
  | None => None
  end.

(** [HH:MM:SS], spaces, digits and "MB" at the start of [s]: the label, the
    spaces, the digits, and what follows "MB". *)
Definition take_sample (s : str) : option (str * str * str * str) :=
  match take_label s with
  | Some (t, s1) =>
      if (1 <=? length (fst (span (CChar " "%char) s1)))%nat then
        if (1 <=? length (fst (span CDigit (snd (span (CChar " "%char) s1)))))%nat then
          match strip_prefix "MB" (snd (span CDigit (snd (span (CChar " "%char) s1)))) with
          | Some s4 =>
              Some (t, fst (span (CChar " "%char) s1),
                    fst (span CDigit (snd (span (CChar " "%char) s1))), s4)
          | None => None
          end
        else None
      else None
  | None => None
  end.

(** The same, followed by spaces and a pipe. *)
Definition take_memory (s : str) : option (str * str * str * str * str) :=
  match take_sample s with
  | Some (t, sp1, ds, s4) =>
      if (1 <=? length (fst (span (CChar " "%char) s4)))%nat then
        match strip_prefix "|" (snd (span (CChar " "%char) s4)) with
        | Some post => Some (t, sp1, ds, fst (span (CChar " "%char) s4), post)
        | None => None
        end
      else None
  | None => None
  end.

(** What the lines of a log offer to [memory_usage], in order. *)
Definition samples (lines : list str) : list (key * str) :=
  flat_map (fun line => match line_sample line with
                        | Some p => [p]
                        | None => []
                        end) lines.

(** The model once [parse] has reset it and stored the lines. *)
Definition loaded (lines : list str) : LogBrowserModel :=
  mkModel lines None [] [] [].

(** * The window: what [MainWindow] shows

    The methods of [MainWindow], read on the state they act on: the
    model, the pages of the tab widget, the widgets made so far, and the
    text and style sheet of the path field.  Qt is modelled as far as
    the methods use it: a [QTabWidget] is the ordered list of its tabs
    (page, label, label colour, icon), an index of -1 is [None], and a
    widget is known by the number it was made under.  A text edit keeps
    the text it was given, as plain text only where Qt is sure to show
    it so.  Layouts and [resizeColumnsToContents] change no state kept
    here. *)

Module Window.

(** The two standard icons [set_icon] is asked for, attributes of
    [QStyle]. *)
Inductive standard_pixmap : Type :=
| SP_MessageBoxWarning
| SP_MessageBoxCritical.

(** What [QTextEdit.setText] leaves in the edit.  Qt guesses the format
    of the text it is given: a text that holds no [<] and no [&] is never
    taken for rich text and is shown as it is; any other text may be read
    as HTML, and what is shown then is not modelled, only the text given
    is kept. *)
Inductive document : Type :=
| PlainText (text : str)
| AutoText (source : str).

(** A [QTextEdit]: [setTextColor] when a colour is given, then
    [setText]. *)
Record text_edit : Type := mkTextEdit {
  edit_color : option str;
  edit_text : document
}.

(** A [QTableView] with its [QStandardItemModel].  An item is made from
    a Python value, a string or [None].  Qt shows the grid and both
    headers unless told otherwise. *)
Record table_view : Type := mkTableView {
  vertical_header_hidden : bool;
  horizontal_header_hidden : bool;
  show_grid : bool;
  header_labels : list str;
  rows : list (list (option str))
}.

Inductive widget_class : Type :=
| QTabWidget
| QTableWidget.

(** A page: its class, the table view laid out in it, the text edits
    laid out in it. *)
Record widget : Type := mkWidget {
  class_of : widget_class;
  view : option table_view;
  edits : list text_edit
}.

Record tab : Type := mkTab {
  tab_page : nat;
  tab_text : str;
  tab_text_color : option str;
  tab_icon : option standard_pixmap
}.

Record MainWindow : Type := mkWindow {
  model : LogBrowserModel;
  tab_widget : list tab;
  (** the widgets made, latest state first *)
  widgets : list (nat * widget);
  (** the number the next widget is made under *)
  next_widget : nat;
  file_path_edit_text : str;
  file_path_edit_style : str
}.

(** What can be raised: by the model, or by [sorted] on keys that cannot
    be compared. *)
Inductive py_exn : Type :=
| ModelError (e : exn)
| TypeError.

Inductive ui_outcome (A : Type) : Type :=
| Done (a : A) (w : MainWindow)
| Failed (e : py_exn) (w : MainWindow).

Arguments Done {A} a w.
Arguments Failed {A} e w.

Definition UI (A : Type) : Type := MainWindow -> ui_outcome A.

Definition ui_ret {A : Type} (a : A) : UI A := fun w => Done a w.

Definition ui_bind {A B : Type} (c : UI A) (f : A -> UI B) : UI B :=
  fun w =>
    match c w with
    | Done a w' => f a w'
    | Failed e w' => Failed e w'
    end.

Declare Scope ui_scope.
Notation "x <- c ;; k" := (ui_bind c (fun x => k))
  (at level 100, c at next level, right associativity) : ui_scope.
Notation "c ;; k" := (ui_bind c (fun _ => k))
  (at level 100, right associativity) : ui_scope.
Local Open Scope ui_scope.

Definition ui_gets {A : Type} (f : MainWindow -> A) : UI A :=
  fun w => Done (f w) w.

Definition ui_raise {A : Type} (e : py_exn) : UI A := fun w => Failed e w.

Definition with_model (m : LogBrowserModel) (w : MainWindow) : MainWindow :=
  mkWindow m (tab_widget w) (widgets w) (next_widget w)
           (file_path_edit_text w) (file_path_edit_style w).

Definition with_tabs (t : list tab) (w : MainWindow) : MainWindow :=
  mkWindow (model w) t (widgets w) (next_widget w)
           (file_path_edit_text w) (file_path_edit_style w).

Definition with_widgets (ws : list (nat * widget)) (w : MainWindow) : MainWindow :=
  mkWindow (model w) (tab_widget w) ws (next_widget w)
           (file_path_edit_text w) (file_path_edit_style w).

(** A call of a method of [self.model]. *)
Definition on_model {A : Type} (c : M A) : UI A :=
  fun w =>
    match c (model w) with
    | Return a m => Done a (with_model m w)
    | Raise e m => Failed (ModelError e) (with_model m w)
    end.

(** ** Qt, as far as it is used *)

(** Making a widget: it gets the next number. *)
Definition make_widget (x : widget) : UI nat :=
  fun w =>
    Done (next_widget w)
         (mkWindow (model w) (tab_widget w) ((next_widget w, x) :: widgets w)
                   (S (next_widget w)) (file_path_edit_text w) (file_path_edit_style w)).

Fixpoint widget_at (ws : list (nat * widget)) (page : nat) : option widget :=
  match ws with
  | [] => None
  | (p, x) :: ws' => if (p =? page)%nat then Some x else widget_at ws' page
  end.

Fixpoint change_first (page : nat) (f : widget -> widget) (ws : list (nat * widget))
    : list (nat * widget) :=
  match ws with
  | [] => []
  | (p, x) :: ws' =>
      if (p =? page)%nat then (p, f x) :: ws' else (p, x) :: change_first page f ws'
  end.

(** A change made to the widget known under [page], in place. *)
Definition change_widget (page : nat) (f : widget -> widget) : UI unit :=
  fun w => Done tt (with_widgets (change_first page f (widgets w)) w).

(** [QTabWidget.count] *)
Definition count : UI nat := ui_gets (fun w => length (tab_widget w)).

Fixpoint remove_nth {A : Type} (n : nat) (l : list A) : list A :=
  match l with
  | [] => []
  | x :: l' =>
      match n with
      | 0 => l'
      | S n' => x :: remove_nth n' l'
      end
  end.

(** [QTabWidget.removeTab]: the page itself is not deleted. *)
Definition removeTab (index : nat) : UI unit :=
  fun w => Done tt (with_tabs (remove_nth index (tab_widget w)) w).

(** [QTabWidget.addTab]: the new tab goes last. *)
Definition addTab (page : nat) (label : str) : UI nat :=
  fun w =>
    Done (length (tab_widget w))
         (with_tabs (tab_widget w ++ [mkTab page label None None]) w).

Fixpoint index_of (page : nat) (l : list tab) : option nat :=
  match l with
  | [] => None
  | t :: l' =>
      if (tab_page t =? page)%nat then Some 0
      else option_map S (index_of page l')
  end.

(** [QTabWidget.indexOf]: [None] stands for -1. *)
Definition indexOf (page : nat) : UI (option nat) :=
  ui_gets (fun w => index_of page (tab_widget w)).

Fixpoint change_nth {A : Type} (n : nat) (f : A -> A) (l : list A) : list A :=
  match l with
  | [] => []
  | x :: l' =>
      match n with
      | 0 => f x :: l'
      | S n' => x :: change_nth n' f l'
      end
  end.

(** A setter of a tab by index: nothing happens out of range. *)
Definition change_tab (index : option nat) (f : tab -> tab) : UI unit :=
  fun w =>
    match index with
    | Some i => Done tt (with_tabs (change_nth i f (tab_widget w)) w)
    | None => Done tt w
    end.

Definition setTabText (index : option nat) (text : str) : UI unit :=
  change_tab index (fun t => mkTab (tab_page t) text (tab_text_color t) (tab_icon t)).

(** [tabBar().setTabTextColor(index, QColor(color))] *)
Definition setTabTextColor (index : option nat) (color : str) : UI unit :=
  change_tab index (fun t => mkTab (tab_page t) (tab_text t) (Some color) (tab_icon t)).

Definition setTabIcon (index : option nat) (icon : standard_pixmap) : UI unit :=
  change_tab index (fun t => mkTab (tab_page t) (tab_text t) (tab_text_color t) (Some icon)).

(** [file_path_edit.setStyleSheet] and [file_path_edit.setText] *)
Definition setStyleSheet (sheet : str) : UI unit :=
  fun w => Done tt (mkWindow (model w) (tab_widget w) (widgets w) (next_widget w)
                             (file_path_edit_text w) sheet).

Definition setText (text : str) : UI unit :=
  fun w => Done tt (mkWindow (model w) (tab_widget w) (widgets w) (next_widget w)
                             text (file_path_edit_style w)).

(** Whether a text holds one of the characters [Qt::mightBeRichText]
    needs to answer yes: [<], or [&] for the entity of [<]. *)
Definition holds_markup (text : str) : bool :=
  existsb (fun c => Ascii.eqb c "<"%char || Ascii.eqb c "&"%char) text.

(** [QTextEdit.setText] *)
Definition setText_edit (text : str) : document :=
  if holds_markup text then AutoText text else PlainText text.

(** A [QTableView] as Qt makes it, with an empty item model. *)
Definition new_table_view : table_view :=
  mkTableView false false true [] [].

(** On the view of a table page and its item model. *)
Definition change_view (page : nat) (f : table_view -> table_view) : UI unit :=
  change_widget page (fun x => mkWidget (class_of x) (option_map f (view x)) (edits x)).

Definition setHorizontalHeaderLabels (page : nat) (labels : list str) : UI unit :=
  change_view page (fun v => mkTableView (vertical_header_hidden v)
                                         (horizontal_header_hidden v)
                                         (show_grid v) labels (rows v)).

Definition appendRow (page : nat) (items : list (option str)) : UI unit :=
  change_view page (fun v => mkTableView (vertical_header_hidden v)
                                         (horizontal_header_hidden v)
                                         (show_grid v) (header_labels v)
                                         (rows v ++ [items])).

(** ** Python, as far as it is used *)

(** [a < b] on strings: by code points, a proper prefix first. *)
Fixpoint str_ltb (a b : str) : bool :=
  match a, b with
  | _, [] => false
  | [], _ :: _ => true
  | x :: a', y :: b' =>
      if (nat_of_ascii x <? nat_of_ascii y)%nat then true
      else if (nat_of_ascii y <? nat_of_ascii x)%nat then false
      else str_ltb a' b'
  end.

(** A stable sort: each element goes before the first one that is not
    below it. *)
Fixpoint insert_sorted (x : str) (l : list str) : list str :=
  match l with
  | [] => [x]
  | y :: l' => if str_ltb y x then y :: insert_sorted x l' else x :: l
  end.

Definition sort_strs (l : list str) : list str :=
  fold_right insert_sorted [] l.

(** The keys when every one of them is a string. *)
Fixpoint str_keys (l : list key) : option (list str) :=
  match l with
  | [] => Some []
  | Some s :: l' => option_map (cons s) (str_keys l')
  | None :: _ => None
  end.

(** [sorted(keys)]: comparing [None] with anything raises [TypeError];
    a list of one element is compared with nothing. *)
Definition sorted (l : list key) : py_exn + list key :=
  match str_keys l with
  | Some ss => inr (map Some (sort_strs ss))
  | None =>
      match l with
      | [_] => inr l
      | _ => inl TypeError
      end
  end.

Definition ui_lift {A : Type} (x : py_exn + A) : UI A :=
  match x with
  | inr a => ui_ret a
  | inl e => ui_raise e
  end.

(** [str(n)], as [format] writes a length. *)
Definition str_of_nat (n : nat) : str :=
  NilZero.string_of_uint (Nat.to_uint n).

Fixpoint for_in {A : Type} (l : list A) (body : A -> UI unit) : UI unit :=
  match l with
  | [] => ui_ret tt
  | x :: l' => body x ;; for_in l' body
  end.

(** [for index in range(n): body] where the body does not read [index]. *)
Fixpoint repeat_ui (n : nat) (body : UI unit) : UI unit :=
  match n with
  | 0 => ui_ret tt
  | S n' => body ;; repeat_ui n' body
  end.

(** ** MainWindow *)

Definition white_sheet : str := "QLineEdit{background : white;}".
Definition red_sheet : str := "QLineEdit{background : red;}".

Definition clean_window_and_stored_data : UI unit :=
  (* Clean UI *)
  tabs_count <- count ;;
  repeat_ui tabs_count (removeTab 0) ;;
  setStyleSheet white_sheet ;;
  (* Clean stored information *)
  on_model reset_data.

Definition new_table (tab_name : str) (hide_vertical_header hide_horizontal_header
    show_grid_arg : bool) (tab_title_color : option str) : UI nat :=
  (* Init new table, with a table view for dynamic information display *)
  new_table' <- make_widget (mkWidget QTableWidget (Some new_table_view) []) ;;
  (if hide_vertical_header
   then change_view new_table' (fun v =>
          mkTableView true (horizontal_header_hidden v) (show_grid v)
                      (header_labels v) (rows v))
   else ui_ret tt) ;;
  (if hide_horizontal_header
   then change_view new_table' (fun v =>
          mkTableView (vertical_header_hidden v) true (show_grid v)
                      (header_labels v) (rows v))
   else ui_ret tt) ;;
  (if show_grid_arg
   then change_view new_table' (fun v =>
          mkTableView (vertical_header_hidden v) (horizontal_header_hidden v) true
                      (header_labels v) (rows v))
   else ui_ret tt) ;;
  (* Add tab to widget *)
  addTab new_table' [] ;;
  i <- indexOf new_table' ;;
  setTabText i tab_name ;;
  match tab_title_color with
  | Some ((_ :: _) as color) => j <- indexOf new_table' ;; setTabTextColor j color
  | _ => ui_ret tt
  end ;;
  ui_ret new_table'.

Definition new_tab (tab_name : str) (tab_title_color : option str) : UI nat :=
  (* Init tab *)
  new_tab' <- make_widget (mkWidget QTabWidget None []) ;;
  (* Add tab to main widget *)
  addTab new_tab' [] ;;
  (* Name tab *)
  i <- indexOf new_tab' ;;
  setTabText i tab_name ;;
  match tab_title_color with
  | Some ((_ :: _) as color) => j <- indexOf new_tab' ;; setTabTextColor j color
  | _ => ui_ret tt
  end ;;
  ui_ret new_tab'.

Definition add_text_to_widget (widget' : nat) (text : str) (text_color : option str)
    : UI unit :=
  (* a text edit widget for information display, added to a layout of the widget *)
  change_widget widget'
    (fun x => mkWidget (class_of x) (view x)
                (edits x ++ [mkTextEdit (if truthy text_color then text_color else None)
                                        (setText_edit text)])).

Definition set_icon (icon_name : standard_pixmap) (tab_index : option nat) : UI unit :=
  setTabIcon tab_index icon_name.

Definition wrong_file_path : UI unit :=
  error_tab <- new_tab "ERROR" (Some ("red" : str)) ;;
  add_text_to_widget error_tab "Please select an existing .log file" (Some ("red" : str)) ;;
  setStyleSheet red_sheet.

Definition set_render_time_tab : UI unit :=
  render_time' <- ui_gets (fun w => render_time (model w)) ;;
  match render_time' with
  | Some ((_ :: _) as t) =>
      render_tab <- new_tab "Render Time" None ;;
      add_text_to_widget render_tab ("Render done in: " ++ t) None
  | _ => ui_ret tt
  end.

Definition set_memory_usage_tab : UI unit :=
  d <- ui_gets (fun w => memory_usage (model w)) ;;
  match d with
  | [] => ui_ret tt
  | _ :: _ =>
      memory_usage_tab <- new_table "Memory Usage" true false false None ;;
      (* Sort time tags to display them chronologically *)
      time_elapsed_list <- ui_lift (sorted (keys d)) ;;
      setHorizontalHeaderLabels memory_usage_tab
        ["Time Elapsed" : str; "Memory usage at that stage" : str] ;;
      for_in time_elapsed_list (fun time_elapsed =>
        appendRow memory_usage_tab [time_elapsed; dict_get d time_elapsed])
  end.

Definition set_warnings_tab : UI unit :=
  ws <- ui_gets (fun w => warnings (model w)) ;;
  match ws with
  | [] => ui_ret tt
  | _ :: _ =>
      warning_tab <- new_table ("Warnings (" ++ str_of_nat (length ws) ++ ")")
                               true true false (Some ("orange" : str)) ;;
      for_in ws (fun warning => appendRow warning_tab [Some warning]) ;;
      i <- indexOf warning_tab ;;
      set_icon SP_MessageBoxWarning i
  end.

Definition set_errors_tab : UI unit :=
  es <- ui_gets (fun w => errors (model w)) ;;
  match es with
  | [] => ui_ret tt
  | _ :: _ =>
      errors_tab <- new_table ("Errors (" ++ str_of_nat (length es) ++ ")")
                              true true false (Some ("red" : str)) ;;
      for_in es (fun error => appendRow errors_tab [Some error]) ;;
      i <- indexOf errors_tab ;;
      set_icon SP_MessageBoxCritical i
  end.

Definition set_tabs (w : os) (file_path : str) : UI unit :=
  setText file_path ;;
  on_model (store_raw_log w file_path) ;;
  on_model parse_log ;;
  set_render_time_tab ;;
  set_memory_usage_tab ;;
  set_warnings_tab ;;
  set_errors_tab.

Definition browse_on_key_pressed (w : os) : UI unit :=
  clean_window_and_stored_data ;;
  file_path <- ui_gets file_path_edit_text ;;
  if negb (path_exists w file_path && str_eqb (splitext_ext w file_path) ".log")
  then wrong_file_path
  else set_tabs w file_path.

Definition browse_on_click (w : os) (selected : str) : UI unit :=
  clean_window_and_stored_data ;;
  match selected with
  | [] => ui_ret tt
  | _ :: _ => set_tabs w selected
  end.

(** The window as [__init__] leaves it: no tab, an empty path field. *)
Definition new_window : MainWindow :=
  mkWindow new_model [] [] 0 [] [].

(** What a tab shows: label, label colour, icon and page. *)
Definition shown_tab : Type :=
  str * option str * option standard_pixmap * option widget.

Definition shown (w : MainWindow) : list shown_tab :=
  map (fun t => (tab_text t, tab_text_color t, tab_icon t,
                 widget_at (widgets w) (tab_page t)))
      (tab_widget w).

(** No tab shows a page made later than the next widget will be. *)
Definition fresh (w : MainWindow) : Prop :=
  Forall (fun t => tab_page t < next_widget w) (tab_widget w).

(** The keys that are strings. *)
Definition labels (d : dict) : list str :=
  flat_map (fun kv => match fst kv with
                      | Some t => [t]
                      | None => []
                      end) d.

(** The tabs a model is to be shown with: the render time as a text,
    plain when the time holds no [<] and no [&]; the memory usage as a
    table in the order of the time labels; the warnings and the errors
    as tables of one column with their number in the title; each only
    when there is something to show. *)
Definition render_time_tab (m : LogBrowserModel) : list shown_tab :=
  match render_time m with
  | Some ((_ :: _) as t) =>
      [("Render Time" : str, None, None,
        Some (mkWidget QTabWidget None
                [mkTextEdit None
                   (if holds_markup t
                    then AutoText ("Render done in: " ++ t)
                    else PlainText ("Render done in: " ++ t))]))]
  | _ => []
  end.

Definition memory_usage_tab (m : LogBrowserModel) : list shown_tab :=
  match memory_usage m with
  | [] => []
  | _ :: _ =>
      [("Memory Usage" : str, None, None,
        Some (mkWidget QTableWidget
                (Some (mkTableView true false true
                         ["Time Elapsed" : str; "Memory usage at that stage" : str]
                         (map (fun t => [Some t; dict_get (memory_usage m) (Some t)])
                              (sort_strs (labels (memory_usage m))))))
                []))]
  end.

Definition entries_tab (title color : str) (icon : standard_pixmap) (entries : list str)
    : list shown_tab :=
  match entries with
  | [] => []
  | _ :: _ =>
      [(title ++ " (" ++ str_of_nat (length entries) ++ ")", Some color, Some icon,
        Some (mkWidget QTableWidget
                (Some (mkTableView true true true []
                         (map (fun e => [Some e]) entries)))
                []))]
  end.

Definition tabs_for (m : LogBrowserModel) : list shown_tab :=
  render_time_tab m ++ memory_usage_tab m ++
  entries_tab "Warnings" "orange" SP_MessageBoxWarning (warnings m) ++
  entries_tab "Errors" "red" SP_MessageBoxCritical (errors m).

(** Elapsed seconds of a label [HH:MM:SS]. *)
Definition digit_value (c : ascii) : nat := nat_of_ascii c - 48.

Definition seconds_of (t : str) : nat :=
  match t with
  | [a; b; _; c; d; _; e; f] =>
      (10 * digit_value a + digit_value b) * 3600 +
      (10 * digit_value c + digit_value d) * 60 +
      (10 * digit_value e + digit_value f)
  | _ => 0
  end.

(** Minutes and seconds below 60. *)
Definition clock_label (t : str) : Prop :=
  time_label t /\
  match t with
  | [_; _; _; c; _; _; e; _] => digit_value c < 6 /\ digit_value e < 6
  | _ => False
  end.

(** ** Auxiliary definitions for the proofs about the window *)

(** A window with one more tab, on a page just made. *)
Definition pushed (w : MainWindow) (a : str) (b : option str)
    (c : option standard_pixmap) (x : widget) : MainWindow :=
  mkWindow (model w)
           (tab_widget w ++ [mkTab (next_widget w) a b c])
           ((next_widget w, x) :: widgets w)
           (S (next_widget w))
           (file_path_edit_text w) (file_path_edit_style w).

(** The colour a title or a text gets: none for [None] or an empty name. *)
Definition color_given (c : option str) : option str :=
  if truthy c then c else None.

(** A page with more rows in its table. *)
Definition add_rows (rs : list (list (option str))) (x : widget) : widget :=
  mkWidget (class_of x)
           (option_map (fun v => mkTableView (vertical_header_hidden v)
                                             (horizontal_header_hidden v)
                                             (show_grid v) (header_labels v)
                                             (rows v ++ rs))
                       (view x))
           (edits x).

(** [c] adds the tabs [part] of the model to a window, and changes
    nothing else that is shown, when the model is [ok]. *)
Definition adds (c : UI unit) (ok : LogBrowserModel -> Prop)
    (part : LogBrowserModel -> list shown_tab) : Prop :=
  forall w : MainWindow,
    fresh w -> ok (model w) ->
    exists w',
      c w = Done tt w' /\ fresh w' /\ model w' = model w /\
      file_path_edit_text w' = file_path_edit_text w /\
      file_path_edit_style w' = file_path_edit_style w /\
      shown w' = shown w ++ part (model w).

(** The usage label stored under a time label. *)
Definition usage_of (d : dict) (t : str) : str :=
  match dict_get d (Some t) with
  | Some v => v
  | None => []
  end.

End Window.

(** * Proofs *)

(** ** Strings *)

Lemma str_eqb_eq (a b : str) : str_eqb a b = true <-> a = b.
Proof.
  revert b; induction a as [|x a IH]; intros [|y b]; simpl; split; intro H;
    try reflexivity; try discriminate.
  - apply andb_true_iff in H as [Hx Hab].
    apply Ascii.eqb_eq in Hx. apply IH in Hab. congruence.
  - injection H as -> ->. rewrite Ascii.eqb_refl. simpl. now apply IH.
Qed.

Lemma key_eqb_eq (a b : key) : key_eqb a b = true <-> a = b.
Proof.
  destruct a as [x|], b as [y|]; simpl; split; intro H;
    try reflexivity; try discriminate.
  - apply str_eqb_eq in H. congruence.
  - injection H as ->. now apply str_eqb_eq.
Qed.

Lemma strip_prefix_app (l s : str) : strip_prefix l (l ++ s) = Some s.
Proof.
  induction l as [|x l IH]; simpl; [reflexivity|].
  now rewrite Ascii.eqb_refl.
Qed.

Lemma strip_prefix_inv (l s s' : str) :
  strip_prefix l s = Some s' -> s = l ++ s'.
Proof.
  revert s; induction l as [|x l IH]; simpl; intros s H.
  - congruence.
  - destruct s as [|y s]; [discriminate|].
    destruct (Ascii.eqb_spec x y) as [->|]; [|discriminate].
    f_equal. now apply IH.
Qed.

Lemma consumed_app (a b : str) : consumed (a ++ b) b = a.
Proof.
  unfold consumed. rewrite length_app.
  replace (length a + length b - length b) with (length a + 0) by lia.
  rewrite firstn_app_2. simpl. apply app_nil_r.
Qed.

Lemma consumed_self (s : str) : consumed s s = [].
Proof. unfold consumed. now rewrite Nat.sub_diag. Qed.

(** ** The longest run of a class *)

Lemma span_app (cs : cset) (s : str) : fst (span cs s) ++ snd (span cs s) = s.
Proof.
  induction s as [|c s IH]; simpl; [reflexivity|].
  destruct (cset_mem cs c); simpl; [now rewrite IH | reflexivity].
Qed.

Lemma span_run (cs : cset) (s : str) :
  Forall (fun c => cset_mem cs c = true) (fst (span cs s)).
Proof.
  induction s as [|c s IH]; simpl; [constructor|].
  destruct (cset_mem cs c) eqn:E; simpl; [now constructor | constructor].
Qed.

Lemma span_stop (cs : cset) (s : str) (c : ascii) (t : str) :
  snd (span cs s) = c :: t -> cset_mem cs c = false.
Proof.
  induction s as [|x s IH]; simpl; [discriminate|].
  destruct (cset_mem cs x) eqn:E; simpl; [exact IH|].
  intro H. injection H as -> _. exact E.
Qed.

(** A run followed by something that does not continue it is the span. *)
Lemma span_unique (cs : cset) (run rest : str) :
  Forall (fun c => cset_mem cs c = true) run ->
  (forall c t, rest = c :: t -> cset_mem cs c = false) ->
  span cs (run ++ rest) = (run, rest).
Proof.
  intros Hrun Hrest. induction Hrun as [|c run Hc _ IH]; simpl.
  - destruct rest as [|c t]; [reflexivity|].
    simpl. now rewrite (Hrest c t eq_refl).
  - cbn beta in Hc. rewrite Hc, IH. reflexivity.
Qed.

Lemma up_to_eol_span (s : str) : up_to_eol s = fst (span CAny s).
Proof.
  induction s as [|c s IH]; simpl; [reflexivity|].
  destruct (Ascii.eqb c newline); simpl; [reflexivity | now rewrite IH].
Qed.

(** ** Greedy repetition *)

Lemma option_match_id {R : Type} (x : option R) :
  match x with Some r => Some r | None => None end = x.
Proof. now destruct x. Qed.

(** [x{2}] takes exactly two characters of the class. *)
Lemma rep_exact2 {R : Type} (cs : cset) (s : str) (k : str -> option R) :
  rep cs 2 (Some 2) s k =
  match s with
  | a :: b :: t => if cset_mem cs a && cset_mem cs b then k t else None
  | _ => None
  end.
Proof.
  destruct s as [|a [|b t]]; simpl; try reflexivity.
  - now destruct (cset_mem cs a).
  - destruct (cset_mem cs a); simpl; [|reflexivity].
    destruct (cset_mem cs b); simpl; [|reflexivity].
    rewrite option_match_id.
    destruct t as [|c t]; simpl; [now rewrite option_match_id|].
    rewrite andb_false_r. now rewrite option_match_id.
Qed.

(** When what follows fails on every character of the class, the unbounded
    quantifier stops where the run stops. *)
Lemma rep_reject {R : Type} (cs : cset) (lo : nat) (s : str) (k : str -> option R) :
  (forall c t, cset_mem cs c = true -> k (c :: t) = None) ->
  rep cs lo None s k =
  if (lo <=? length (fst (span cs s)))%nat then k (snd (span cs s)) else None.
Proof.
  intro Hk. revert lo; induction s as [|c s IH]; intro lo; simpl.
  - now destruct lo.
  - destruct (cset_mem cs c) eqn:E; simpl.
    + rewrite (Hk c s E). rewrite IH.
      destruct lo as [|lo]; simpl; [|now rewrite option_match_id].
      now rewrite option_match_id.
    + now destruct lo.
Qed.

(** When what follows succeeds where the run stops, that is the answer. *)
Lemma rep_accept {R : Type} (cs : cset) (lo : nat) (s : str) (k : str -> option R) (v : R) :
  lo <= length (fst (span cs s)) ->
  k (snd (span cs s)) = Some v ->
  rep cs lo None s k = Some v.
Proof.
  revert lo; induction s as [|c s IH]; intros lo Hlo Hk; simpl in *.
  - assert (lo = 0) as -> by lia. exact Hk.
  - destruct (cset_mem cs c) eqn:E; simpl in *.
    + rewrite (IH (pred lo)); [reflexivity | lia | exact Hk].
    + assert (lo = 0) as -> by lia. exact Hk.
Qed.

(** ** Leftmost search *)

Lemma search_spec (r : regex) (line : str) :
  match search r line with
  | Some mo =>
      exists pre s,
        line = pre ++ s /\ match_at r s = Some mo /\
        forall p1 p2, pre = p1 ++ p2 -> p2 <> [] -> match_at r (p2 ++ s) = None
  | None => forall p s, line = p ++ s -> match_at r s = None
  end.
Proof.
  induction line as [|c line IH]; simpl.
  - destruct (match_at r []) as [mo|] eqn:E.
    + exists [], []. repeat split; [exact E|].
      intros [|? ?] [|? ?]; simpl; congruence.
    + intros p s H. symmetry in H. apply app_eq_nil in H as [_ ->]. exact E.
  - destruct (match_at r (c :: line)) as [mo|] eqn:E.
    + exists [], (c :: line). repeat split; [exact E|].
      intros [|? ?] [|? ?]; simpl; congruence.
    + destruct (search r line) as [mo|].
      * destruct IH as (pre & s & -> & Hm & Hearlier).
        exists (c :: pre), s. repeat split; [exact Hm|].
        intros [|x p1] p2 Hp Hne; simpl in Hp.
        -- subst p2. exact E.
        -- injection Hp as -> ->. now apply (Hearlier p1 p2).
      * intros [|x p] s H; simpl in H.
        -- now subst s.
        -- injection H as -> ->. now apply (IH p).
Qed.

Lemma search_found (r : regex) (pre s : str) (mo : match_obj) :
  match_at r s = Some mo ->
  (forall p1 p2, pre = p1 ++ p2 -> p2 <> [] -> match_at r (p2 ++ s) = None) ->
  search r (pre ++ s) = Some mo.
Proof.
  intros Hm. induction pre as [|c pre IH]; intro Hearlier; simpl.
  - destruct s; simpl; now rewrite Hm.
  - pose proof (Hearlier [] (c :: pre) eq_refl) as H0. simpl in H0.
    rewrite H0 by discriminate.
    apply IH. intros p1 p2 -> Hne. now apply (Hearlier (c :: p1) p2).
Qed.

Lemma search_none (r : regex) (line : str) :
  (forall p s, line = p ++ s -> match_at r s = None) ->
  search r line = None.
Proof.
  intro H. pose proof (search_spec r line) as S.
  destruct (search r line) as [mo|]; [|reflexivity].
  destruct S as (pre & s & Hl & Hm & _). rewrite (H pre s Hl) in Hm. discriminate.
Qed.

(** The leftmost match, read through a description [D] of the strings that
    have a match at their start. *)
Lemma search_leftmost (r : regex) (D : str -> Prop) (line : str) :
  (forall s, D s -> match_at r s <> None) ->
  match search r line with
  | Some mo =>
      exists pre s,
        line = pre ++ s /\ match_at r s = Some mo /\
        forall pre' s', line = pre' ++ s' -> D s' -> length pre <= length pre'
  | None => forall pre s, line = pre ++ s -> ~ D s
  end.
Proof.
  intro HD. pose proof (search_spec r line) as S.
  destruct (search r line) as [mo|].
  - destruct S as (pre & s & Hl & Hm & Hearlier).
    exists pre, s. repeat split; trivial.
    intros pre' s' Hl' Hs'.
    destruct (le_lt_dec (length pre) (length pre')) as [|Hlt]; [assumption|].
    exfalso. rewrite Hl in Hl'.
    apply app_eq_app in Hl' as [p2 [[Hp Hs]|[Hp Hs]]].
    + subst pre s'. apply (HD _ Hs'). apply (Hearlier pre' p2 eq_refl).
      intros ->. rewrite app_nil_r in Hlt. lia.
    + subst pre'. rewrite length_app in Hlt. lia.
  - intros pre s Hl Hs. apply (HD s Hs). now apply (S pre).
Qed.

Lemma search_leftmost_found (r : regex) (D : str -> Prop) (pre s : str) (mo : match_obj) :
  (forall s', match_at r s' <> None -> D s') ->
  match_at r s = Some mo ->
  (forall pre' s', pre ++ s = pre' ++ s' -> D s' -> length pre <= length pre') ->
  search r (pre ++ s) = Some mo.
Proof.
  intros HD Hm Hleft. apply search_found; [exact Hm|].
  intros p1 p2 -> Hne.
  destruct (match_at r (p2 ++ s)) eqn:E; [exfalso | reflexivity].
  assert (D (p2 ++ s)) as Hd by (apply HD; congruence).
  specialize (Hleft p1 (p2 ++ s)). rewrite <- app_assoc in Hleft.
  specialize (Hleft eq_refl Hd). rewrite length_app in Hleft.
  destruct p2; [congruence | simpl in Hleft; lia].
Qed.

Lemma consumed_prefix (s a b : str) : s = a ++ b -> consumed s b = a.
Proof. intros ->. apply consumed_app. Qed.

Lemma consumed_span (cs : cset) (a rest : str) :
  consumed (a ++ rest) (snd (span cs rest)) = a ++ fst (span cs rest).
Proof.
  apply consumed_prefix. rewrite <- app_assoc. f_equal. symmetry. apply span_app.
Qed.

Lemma consumed_span0 (cs : cset) (rest : str) :
  consumed rest (snd (span cs rest)) = fst (span cs rest).
Proof. apply (consumed_span cs [] rest). Qed.

(** ** One marker, to the end of the line: WARNING and ERROR *)

Lemma match_at_marker (mk s : str) :
  match_at (Lit mk +++ Group 1 any_text) s =
  match strip_prefix mk s with
  | Some rest => Some (mk ++ up_to_eol rest, [(1, up_to_eol rest)])
  | None => None
  end.
Proof.
  unfold match_at, any_text. cbn [mt].
  destruct (strip_prefix mk s) as [rest|] eqn:E; [|reflexivity].
  apply strip_prefix_inv in E. subst s.
  apply rep_accept; [lia|].
  now rewrite up_to_eol_span, consumed_span, consumed_span0.
Qed.

Lemma marker_at_iff (mk s : str) :
  match_at (Lit mk +++ Group 1 any_text) s <> None <-> exists rest, s = mk ++ rest.
Proof.
  rewrite match_at_marker. split.
  - destruct (strip_prefix mk s) as [rest|] eqn:E; [|congruence].
    intros _. exists rest. now apply strip_prefix_inv.
  - intros [rest ->]. rewrite strip_prefix_app. discriminate.
Qed.

(** What [search] finds for a marker pattern, in the words of the spec. *)
Lemma marker_search_spec (mk line : str) :
  match found (Lit mk +++ Group 1 any_text) line 0 with
  | Some w =>
      exists pre rest, first_occurrence mk line pre rest /\ w = mk ++ up_to_eol rest
  | None => ~ contains mk line
  end.
Proof.
  unfold found.
  pose proof (search_leftmost (Lit mk +++ Group 1 any_text)
                (fun s => exists rest, s = mk ++ rest) line
                (fun s => proj2 (marker_at_iff mk s))) as S.
  destruct (search _ line) as [mo|]; simpl.
  - destruct S as (pre & s & Hl & Hm & Hleft).
    rewrite match_at_marker in Hm.
    destruct (strip_prefix mk s) as [rest|] eqn:E; [|discriminate].
    apply strip_prefix_inv in E. injection Hm as <-. simpl.
    exists pre, rest. split; [|reflexivity].
    split; [now subst|].
    intros pre' rest' Hl'. apply (Hleft pre' (mk ++ rest') Hl'). now exists rest'.
  - intros (pre & rest & Hl). apply (S pre (mk ++ rest) Hl). now exists rest.
Qed.

Lemma line_entry_spec (mk line : str) :
  mk <> [] ->
  (exists pre rest,
      first_occurrence mk line pre rest /\
      line_entry (Lit mk +++ Group 1 any_text) line = [mk ++ up_to_eol rest]) \/
  (~ contains mk line /\ line_entry (Lit mk +++ Group 1 any_text) line = []).
Proof.
  intro Hmk. unfold line_entry.
  pose proof (marker_search_spec mk line) as S.
  destruct (found _ line 0) as [w|].
  - left. destruct S as (pre & rest & Hf & ->). exists pre, rest.
    split; [exact Hf|]. destruct mk; [congruence | reflexivity].
  - right. now split.
Qed.

(** ** Render time *)

Lemma match_at_render (s : str) :
  match_at RENDER_TIME_REGEX s =
  match strip_prefix render_marker s with
  | Some rest =>
      if at_eol (snd (span CAny rest))
      then Some (render_marker ++ fst (span CAny rest), [(1, fst (span CAny rest))])
      else None
  | None => None
  end.
Proof.
  unfold match_at, RENDER_TIME_REGEX, any_text. cbn [mt].
  change (list_ascii_of_string "render done in ") with render_marker.
  destruct (strip_prefix render_marker s) as [rest|] eqn:E; [|reflexivity].
  apply strip_prefix_inv in E. subst s.
  rewrite rep_reject.
  - cbn [Nat.leb].
    destruct (at_eol (snd (span CAny rest))); [|reflexivity].
    now rewrite consumed_span, consumed_span0.
  - intros c t Hc. simpl in Hc. apply negb_true_iff in Hc.
    unfold at_eol. destruct t; [now rewrite Hc | reflexivity].
Qed.

Lemma not_newline_run (tail : str) :
  ~ In newline tail <-> Forall (fun c => cset_mem CAny c = true) tail.
Proof.
  rewrite Forall_forall. split.
  - intros H c Hc. simpl. apply negb_true_iff.
    destruct (Ascii.eqb_spec c newline) as [->|]; [contradiction | reflexivity].
  - intros H Hin. specialize (H newline Hin). vm_compute in H. discriminate.
Qed.

Lemma at_eol_inv (e : str) : at_eol e = true <-> e = [] \/ e = [newline].
Proof.
  destruct e as [|c [|d e]]; simpl; split; intro H; auto;
    try discriminate.
  - right. apply Ascii.eqb_eq in H. now subst.
  - destruct H as [H|H]; [discriminate|]. injection H as ->. apply Ascii.eqb_refl.
  - destruct H as [H|H]; discriminate.
Qed.

Lemma render_at_intro (tail e : str) :
  ~ In newline tail -> (e = [] \/ e = [newline]) ->
  match_at RENDER_TIME_REGEX (render_marker ++ tail ++ e) =
  Some (render_marker ++ tail, [(1, tail)]).
Proof.
  intros Ht He. rewrite match_at_render, strip_prefix_app.
  rewrite (span_unique CAny tail e).
  - simpl. now rewrite (proj2 (at_eol_inv e) He).
  - now apply not_newline_run.
  - intros c t ->. destruct He as [He|He]; [discriminate|].
    injection He as -> _. reflexivity.
Qed.

Lemma render_at_inv (s : str) (mo : match_obj) :
  match_at RENDER_TIME_REGEX s = Some mo ->
  exists tail e,
    s = render_marker ++ tail ++ e /\ ~ In newline tail /\
    (e = [] \/ e = [newline]) /\ mo = (render_marker ++ tail, [(1, tail)]).
Proof.
  rewrite match_at_render.
  destruct (strip_prefix render_marker s) as [rest|] eqn:E; [|discriminate].
  apply strip_prefix_inv in E.
  destruct (at_eol (snd (span CAny rest))) eqn:Ee; [|discriminate].
  intro H. injection H as <-.
  exists (fst (span CAny rest)), (snd (span CAny rest)).
  rewrite span_app. repeat split; trivial.
  - apply not_newline_run, span_run.
  - now apply at_eol_inv.
Qed.

(** What [search] finds for the render-time pattern, in the words of the
    spec. *)
Lemma render_search_spec (line : str) :
  match found RENDER_TIME_REGEX line 1 with
  | Some t => render_tail line t
  | None => forall pre tail, ~ render_line_at line pre tail
  end.
Proof.
  unfold found.
  pose proof (search_leftmost RENDER_TIME_REGEX
                (fun s => exists tail e, s = render_marker ++ tail ++ e /\
                                         ~ In newline tail /\ (e = [] \/ e = [newline]))
                line) as S.
  assert (forall s, (exists tail e, s = render_marker ++ tail ++ e /\
                                    ~ In newline tail /\ (e = [] \/ e = [newline])) ->
                    match_at RENDER_TIME_REGEX s <> None) as HD.
  { intros s (tail & e & -> & Ht & He). now rewrite render_at_intro. }
  specialize (S HD).
  destruct (search RENDER_TIME_REGEX line) as [mo|].
  - destruct S as (pre & s & Hl & Hm & Hleft).
    apply render_at_inv in Hm as (tail & e & -> & Ht & He & ->). simpl.
    exists pre. split.
    + exists e. now repeat split.
    + intros pre' tail' (e' & Hl' & Ht' & He').
      apply (Hleft pre' _ Hl'). now exists tail', e'.
  - intros pre tail (e & Hl & Ht & He).
    apply (S pre _ Hl). now exists tail, e.
Qed.

Lemma render_tail_found (line tail : str) :
  render_tail line tail -> found RENDER_TIME_REGEX line 1 = Some tail.
Proof.
  intros (pre & (e & -> & Ht & He) & Hleft). unfold found.
  rewrite (search_leftmost_found RENDER_TIME_REGEX
             (fun s => exists tail e, s = render_marker ++ tail ++ e /\
                                      ~ In newline tail /\ (e = [] \/ e = [newline]))
             pre _ (render_marker ++ tail, [(1, tail)])).
  - reflexivity.
  - intros s' Hs'. destruct (match_at RENDER_TIME_REGEX s') as [mo|] eqn:E; [|congruence].
    apply render_at_inv in E as (tail' & e' & -> & Ht' & He' & _). now exists tail', e'.
  - now apply render_at_intro.
  - intros pre' s' Hl' (tail' & e' & -> & Ht' & He').
    apply (Hleft pre' tail'). exists e'. now repeat split.
Qed.

(** ** Memory usage *)

Lemma mt_two_digits {R : Type} (s : str) (g : caps) (k : str -> caps -> option R) :
  mt two_digits s g k =
  match take2 s with
  | Some (_, t) => k t g
  | None => None
  end.
Proof.
  unfold two_digits, take2. cbn [mt]. rewrite rep_exact2.
  destruct s as [|a [|b t]]; try reflexivity.
  cbn [cset_mem]. now destruct (is_digit a && is_digit b).
Qed.

Lemma take2_inv (s h t : str) :
  take2 s = Some (h, t) ->
  exists a b, h = [a; b] /\ s = a :: b :: t /\ is_digit a = true /\ is_digit b = true.
Proof.
  unfold take2. destruct s as [|a [|b s]]; try discriminate.
  destruct (is_digit a) eqn:Ea; [|discriminate].
  destruct (is_digit b) eqn:Eb; [|discriminate].
  simpl. intro H. injection H as <- <-. now exists a, b.
Qed.

Lemma mt_hh_mm_ss {R : Type} (s : str) (g : caps) (k : str -> caps -> option R) :
  mt hh_mm_ss s g k =
  match take_label s with
  | Some (_, t) => k t g
  | None => None
  end.
Proof.
  unfold hh_mm_ss, take_label. cbn [mt]. rewrite mt_two_digits.
  destruct (take2 s) as [[h s1]|]; [|reflexivity].
  destruct (strip_prefix ":" s1) as [s2|]; [|reflexivity].
  rewrite mt_two_digits.
  destruct (take2 s2) as [[m s3]|]; [|reflexivity].
  destruct (strip_prefix ":" s3) as [s4|]; [|reflexivity].
  rewrite mt_two_digits.
  now destruct (take2 s4) as [[sec s5]|].
Qed.

Lemma take_label_inv (s t rest : str) :
  take_label s = Some (t, rest) -> s = t ++ rest /\ time_label t.
Proof.
  unfold take_label.
  destruct (take2 s) as [[h s1]|] eqn:E1; [|discriminate].
  destruct (strip_prefix ":" s1) as [s2|] eqn:E2; [|discriminate].
  destruct (take2 s2) as [[m s3]|] eqn:E3; [|discriminate].
  destruct (strip_prefix ":" s3) as [s4|] eqn:E4; [|discriminate].
  destruct (take2 s4) as [[sec s5]|] eqn:E5; [|discriminate].
  intro H. injection H as <- <-.
  apply take2_inv in E1 as (a & b & -> & -> & Ha & Hb).
  apply take2_inv in E3 as (c & d & -> & -> & Hc & Hd).
  apply take2_inv in E5 as (e & f & -> & -> & He & Hf).
  apply strip_prefix_inv in E2 as ->. apply strip_prefix_inv in E4 as ->.
  split; [reflexivity|].
  exists a, b, c, d, e, f. now repeat split.
Qed.

Lemma take_label_intro (t rest : str) :
  time_label t -> take_label (t ++ rest) = Some (t, rest).
Proof.
  intros (a & b & c & d & e & f & -> & Ha & Hb & Hc & Hd & He & Hf).
  unfold take_label, take2. simpl. rewrite Ha, Hb. simpl.
  rewrite Hc, Hd. simpl. now rewrite He, Hf.
Qed.

Lemma time_label_length (t : str) : time_label t -> length t = 8.
Proof. now intros (a & b & c & d & e & f & -> & _). Qed.

Lemma space_mem (c : ascii) : cset_mem (CChar " ") c = true <-> c = " "%char.
Proof.
  unfold cset_mem. split; intro H.
  - apply Ascii.eqb_eq in H. now subst.
  - subst. reflexivity.
Qed.

Lemma spaces_run (t : str) :
  Forall (fun c => cset_mem (CChar " ") c = true) t <-> Forall (fun c => c = " "%char) t.
Proof.
  rewrite !Forall_forall. split; intros H c Hc; now apply space_mem, H.
Qed.

Lemma digit_not_space (c : ascii) : is_digit c = true -> cset_mem (CChar " ") c = false.
Proof.
  intro H. unfold cset_mem.
  destruct (Ascii.eqb_spec " "%char c) as [<-|]; [|reflexivity].
  discriminate H.
Qed.

Lemma strip_MB_digit (c : ascii) (t : str) :
  is_digit c = true -> strip_prefix "MB" (c :: t) = None.
Proof.
  intro H. cbn [strip_prefix list_ascii_of_string].
  destruct (Ascii.eqb_spec "M"%char c) as [<-|]; [|reflexivity].
  discriminate H.
Qed.

(** An unbounded repetition whose continuation fails on the class. *)
Lemma mt_rep_then {R : Type} (cs : cset) (lo : nat) (r : regex) (s : str) (g : caps)
    (k : str -> caps -> option R) :
  (forall c t, cset_mem cs c = true -> mt r (c :: t) g k = None) ->
  mt (Rep cs lo None +++ r) s g k =
  if (lo <=? length (fst (span cs s)))%nat then mt r (snd (span cs s)) g k else None.
Proof.
  intro H. cbn [mt]. now rewrite rep_reject.
Qed.

Lemma take_sample_inv (s t sp1 ds s4 : str) :
  take_sample s = Some (t, sp1, ds, s4) ->
  s = t ++ sp1 ++ ds ++ "MB" ++ s4 /\ time_label t /\ all_spaces sp1 /\ all_digits ds.
Proof.
  unfold take_sample.
  destruct (take_label s) as [[t' s1]|] eqn:E1; [|discriminate].
  apply take_label_inv in E1 as [-> Ht].
  pose proof (span_app (CChar " ") s1) as A1.
  pose proof (span_run (CChar " ") s1) as R1.
  destruct (span (CChar " ") s1) as [r1 s2]; cbn [fst snd] in *.
  destruct (1 <=? length r1)%nat eqn:L1; [|discriminate].
  pose proof (span_app CDigit s2) as A2.
  pose proof (span_run CDigit s2) as R2.
  destruct (span CDigit s2) as [r2 s3]; cbn [fst snd] in *.
  destruct (1 <=? length r2)%nat eqn:L2; [|discriminate].
  destruct (strip_prefix "MB" s3) as [s4'|] eqn:E4; [|discriminate].
  apply strip_prefix_inv in E4.
  intro H. injection H as <- <- <- <-.
  subst s3 s2 s1. repeat split; trivial.
  - destruct r1; [discriminate L1 | discriminate].
  - now apply spaces_run.
  - destruct r2; [discriminate L2 | discriminate].
Qed.

Lemma take_sample_intro (t sp1 ds s4 : str) :
  time_label t -> all_spaces sp1 -> all_digits ds ->
  take_sample (t ++ sp1 ++ ds ++ "MB" ++ s4) = Some (t, sp1, ds, s4).
Proof.
  intros Ht [N1 F1] [N2 F2]. unfold take_sample.
  rewrite (take_label_intro t _ Ht).
  rewrite (span_unique (CChar " ") sp1 (ds ++ "MB" ++ s4)).
  - cbn [fst snd].
    rewrite (span_unique CDigit ds ("MB" ++ s4)).
    + cbn [fst snd]. rewrite strip_prefix_app.
      destruct sp1; [congruence|]. destruct ds; [congruence|]. reflexivity.
    + exact F2.
    + intros c r Hc. simpl in Hc. injection Hc as <- _. reflexivity.
  - now apply spaces_run.
  - intros c r Hc. destruct ds as [|d ds]; [congruence|].
    simpl in Hc. injection Hc as <- _. apply digit_not_space.
    now inversion F2.
Qed.

Lemma take_memory_inv (s t sp1 ds sp2 post : str) :
  take_memory s = Some (t, sp1, ds, sp2, post) ->
  s = t ++ sp1 ++ ds ++ "MB" ++ sp2 ++ "|" ++ post /\
  time_label t /\ all_spaces sp1 /\ all_digits ds /\ all_spaces sp2.
Proof.
  unfold take_memory.
  destruct (take_sample s) as [[[[t' sp1'] ds'] s4]|] eqn:E; [|discriminate].
  apply take_sample_inv in E as (-> & Ht & H1 & H2).
  pose proof (span_app (CChar " ") s4) as A.
  pose proof (span_run (CChar " ") s4) as Rn.
  destruct (span (CChar " ") s4) as [r s5]; cbn [fst snd] in *.
  destruct (1 <=? length r)%nat eqn:L; [|discriminate].
  destruct (strip_prefix "|" s5) as [post'|] eqn:E5; [|discriminate].
  apply strip_prefix_inv in E5.
  intro H. injection H as <- <- <- <- <-.
  subst s5 s4. split; [reflexivity|]. do 3 (split; [assumption|]). split.
  - destruct r; [discriminate L | discriminate].
  - now apply spaces_run.
Qed.

Lemma take_memory_intro (t sp1 ds sp2 post : str) :
  time_label t -> all_spaces sp1 -> all_digits ds -> all_spaces sp2 ->
  take_memory (t ++ sp1 ++ ds ++ "MB" ++ sp2 ++ "|" ++ post) = Some (t, sp1, ds, sp2, post).
Proof.
  intros Ht H1 H2 [N F]. unfold take_memory.
  rewrite (take_sample_intro t sp1 ds _ Ht H1 H2).
  rewrite (span_unique (CChar " ") sp2 ("|" ++ post)).
  - cbn [fst snd]. rewrite strip_prefix_app.
    destruct sp2; [congruence | reflexivity].
  - now apply spaces_run.
  - intros c r Hc. simpl in Hc. injection Hc as <- _. reflexivity.
Qed.

Lemma mt_rep_k {R : Type} (cs : cset) (lo : nat) (s : str) (g : caps)
    (k : str -> caps -> option R) :
  (forall c t, cset_mem cs c = true -> k (c :: t) g = None) ->
  mt (Rep cs lo None) s g k =
  if (lo <=? length (fst (span cs s)))%nat then k (snd (span cs s)) g else None.
Proof.
  intro H. cbn [mt]. now rewrite rep_reject.
Qed.

Lemma mt_digits_space {R : Type} (c : ascii) (t : str) (g : caps)
    (k : str -> caps -> option R) :
  cset_mem (CChar " ") c = true -> mt digits (c :: t) g k = None.
Proof.
  intro H. apply space_mem in H. subst c. reflexivity.
Qed.

Lemma strip_pipe_space (c : ascii) (t : str) :
  cset_mem (CChar " ") c = true -> strip_prefix "|" (c :: t) = None.
Proof.
  intro H. apply space_mem in H. subst c. reflexivity.
Qed.

(** Name the two parts of a span, with the equation that joins them. *)
Ltac split_on_span cs s run rest :=
  let A := fresh "A" in
  pose proof (span_app cs s) as A;
  destruct (span cs s) as [run rest]; cbn [fst snd] in *.

Lemma match_at_memory (s : str) :
  match_at MEMORY_USAGE_REGEX s =
  match take_memory s with
  | Some (t, sp1, ds, sp2, _) => Some (t ++ sp1 ++ ds ++ "MB" ++ sp2 ++ "|", [])
  | None => None
  end.
Proof.
  unfold match_at, MEMORY_USAGE_REGEX. cbn [mt]. rewrite mt_hh_mm_ss.
  unfold take_memory, take_sample.
  destruct (take_label s) as [[t s1]|] eqn:E1; [|reflexivity].
  apply take_label_inv in E1 as [-> _].
  unfold spaces, digits.
  rewrite mt_rep_k by (intros; now apply mt_digits_space).
  split_on_span (CChar " "%char) s1 r1 s2.
  destruct (1 <=? length r1)%nat; [|reflexivity].
  rewrite mt_rep_k by (intros c r Hc; now rewrite strip_MB_digit).
  split_on_span CDigit s2 r2 s3.
  destruct (1 <=? length r2)%nat; [|reflexivity].
  destruct (strip_prefix "MB" s3) as [s4|] eqn:E4; [|reflexivity].
  apply strip_prefix_inv in E4.
  rewrite mt_rep_k by (intros c r Hc; now rewrite strip_pipe_space).
  split_on_span (CChar " "%char) s4 r3 s5.
  destruct (1 <=? length r3)%nat; [|reflexivity].
  destruct (strip_prefix "|" s5) as [post|] eqn:E5; [|reflexivity].
  apply strip_prefix_inv in E5.
  f_equal. f_equal. apply consumed_prefix.
  subst. now rewrite <- !app_assoc.
Qed.

Lemma match_at_time_elapsed (s : str) :
  match_at TIME_ELAPSED_REGEX s =
  match take_sample s with
  | Some (t, sp1, ds, _) => Some (t ++ sp1 ++ ds ++ "MB", [(1, t)])
  | None => None
  end.
Proof.
  unfold match_at, TIME_ELAPSED_REGEX. cbn [mt]. rewrite mt_hh_mm_ss.
  unfold take_sample.
  destruct (take_label s) as [[t s1]|] eqn:E1; [|reflexivity].
  apply take_label_inv in E1 as [-> _].
  unfold spaces, digits.
  rewrite mt_rep_k by (intros; now apply mt_digits_space).
  split_on_span (CChar " "%char) s1 r1 s2.
  destruct (1 <=? length r1)%nat; [|reflexivity].
  rewrite mt_rep_k by (intros c r Hc; now rewrite strip_MB_digit).
  split_on_span CDigit s2 r2 s3.
  destruct (1 <=? length r2)%nat; [|reflexivity].
  destruct (strip_prefix "MB" s3) as [s4|] eqn:E4; [|reflexivity].
  apply strip_prefix_inv in E4.
  rewrite consumed_app. f_equal. f_equal. apply consumed_prefix.
  subst. now rewrite <- !app_assoc.
Qed.

Lemma match_at_memory_usage_time (s : str) :
  match_at MEMORY_USAGE_TIME_REGEX s =
  match take_sample s with
  | Some (t, sp1, ds, _) => Some (t ++ sp1 ++ ds ++ "MB", [(1, ds ++ "MB")])
  | None => None
  end.
Proof.
  unfold match_at, MEMORY_USAGE_TIME_REGEX. cbn [mt]. rewrite mt_hh_mm_ss.
  unfold take_sample.
  destruct (take_label s) as [[t s1]|] eqn:E1; [|reflexivity].
  apply take_label_inv in E1 as [-> _].
  unfold spaces, digits.
  rewrite mt_rep_k by (intros; now apply mt_digits_space).
  split_on_span (CChar " "%char) s1 r1 s2.
  destruct (1 <=? length r1)%nat; [|reflexivity].
  rewrite mt_rep_k by (intros c r Hc; now rewrite strip_MB_digit).
  split_on_span CDigit s2 r2 s3.
  destruct (1 <=? length r2)%nat; [|reflexivity].
  destruct (strip_prefix "MB" s3) as [s4|] eqn:E4; [|reflexivity].
  apply strip_prefix_inv in E4.
  f_equal. f_equal.
  - apply consumed_prefix. subst. now rewrite <- !app_assoc.
  - f_equal. f_equal. apply consumed_prefix. subst. now rewrite <- !app_assoc.
Qed.

Lemma search_at_start (r : regex) (s : str) (mo : match_obj) :
  match_at r s = Some mo -> search r s = Some mo.
Proof. intro H. destruct s; simpl; now rewrite H. Qed.

(** On the text the memory pattern matched, the two other patterns find
    the time label and the usage label. *)
Lemma sample_text_found (t sp1 ds s4 : str) :
  time_label t -> all_spaces sp1 -> all_digits ds ->
  found TIME_ELAPSED_REGEX (t ++ sp1 ++ ds ++ "MB" ++ s4) 1 = Some t /\
  found MEMORY_USAGE_TIME_REGEX (t ++ sp1 ++ ds ++ "MB" ++ s4) 1 = Some (ds ++ "MB").
Proof.
  intros Ht H1 H2. unfold found. split.
  - rewrite (search_at_start _ _ (t ++ sp1 ++ ds ++ "MB", [(1, t)])); [reflexivity|].
    now rewrite match_at_time_elapsed, take_sample_intro.
  - rewrite (search_at_start _ _ (t ++ sp1 ++ ds ++ "MB", [(1, ds ++ "MB")])); [reflexivity|].
    now rewrite match_at_memory_usage_time, take_sample_intro.
Qed.

Lemma line_sample_of_search (line t sp1 ds sp2 : str) :
  search MEMORY_USAGE_REGEX line = Some (t ++ sp1 ++ ds ++ "MB" ++ sp2 ++ "|", []) ->
  time_label t -> all_spaces sp1 -> all_digits ds ->
  line_sample line = Some (Some t, ds ++ "MB").
Proof.
  intros Hs Ht H1 H2. unfold line_sample. unfold found at 1. rewrite Hs.
  cbn [Nat.eqb fst].
  destruct (sample_text_found t sp1 ds (sp2 ++ "|") Ht H1 H2) as [Ft Fu].
  remember (t ++ sp1 ++ ds ++ "MB" ++ sp2 ++ "|") as mu eqn:Emu.
  destruct mu as [|c mu].
  - apply time_label_length in Ht. apply (f_equal (@length ascii)) in Emu.
    rewrite length_app in Emu. simpl in Emu. lia.
  - rewrite Fu, Ft. destruct H2 as [N _]. destruct ds; [congruence | reflexivity].
Qed.

(** What a line offers to [memory_usage], in the words of the spec. *)
Lemma line_sample_spec (line : str) :
  match line_sample line with
  | Some (k, v) => exists t, k = Some t /\ first_sample line t v
  | None => forall pre t mb, ~ sample_at line pre t mb
  end.
Proof.
  pose proof (search_leftmost MEMORY_USAGE_REGEX
    (fun s => exists t sp1 ds sp2 post,
       s = t ++ sp1 ++ ds ++ "MB" ++ sp2 ++ "|" ++ post /\
       time_label t /\ all_spaces sp1 /\ all_digits ds /\ all_spaces sp2) line) as S.
  lapply S; clear S.
  2:{ intros s (t & sp1 & ds & sp2 & post & -> & Ht & H1 & H2 & H3).
      now rewrite match_at_memory, take_memory_intro. }
  intro S. destruct (search MEMORY_USAGE_REGEX line) as [mo|] eqn:Es.
  - destruct S as (pre & s & Hl & Hm & Hleft).
    rewrite match_at_memory in Hm.
    destruct (take_memory s) as [[[[[t sp1] ds] sp2] post]|] eqn:E; [|discriminate].
    injection Hm as <-.
    apply take_memory_inv in E as (-> & Ht & H1 & H2 & H3).
    rewrite (line_sample_of_search line t sp1 ds sp2 Es Ht H1 H2).
    exists t. split; [reflexivity|]. exists pre. split.
    + exists sp1, ds, sp2, post. repeat (split; [assumption|]). reflexivity.
    + intros pre' t' mb' (sp1' & ds' & sp2' & post' & Hl' & Ht' & H1' & H2' & H3' & _).
      apply (Hleft pre' _ Hl').
      exists t', sp1', ds', sp2', post'.
      repeat (split; [assumption || reflexivity|]). assumption.
  - unfold line_sample, found. rewrite Es.
    intros pre t mb (sp1 & ds & sp2 & post & Hl & Ht & H1 & H2 & H3 & _).
    apply (S pre _ Hl). exists t, sp1, ds, sp2, post.
    repeat (split; [assumption || reflexivity|]). assumption.
Qed.

Lemma first_sample_found (line t mb : str) :
  first_sample line t mb -> line_sample line = Some (Some t, mb).
Proof.
  intros (pre & (sp1 & ds & sp2 & post & -> & Ht & H1 & H2 & H3 & ->) & Hleft).
  apply (line_sample_of_search _ t sp1 ds sp2); trivial.
  apply (search_leftmost_found MEMORY_USAGE_REGEX
    (fun s => exists t mb, sample_at s [] t mb)).
  - intros s' Hs'. rewrite match_at_memory in Hs'.
    destruct (take_memory s') as [[[[[t' sp1'] ds'] sp2'] post']|] eqn:E; [|congruence].
    apply take_memory_inv in E as (-> & Ht' & H1' & H2' & H3').
    exists t', (ds' ++ "MB"), sp1', ds', sp2', post'.
    repeat (split; [assumption || reflexivity|]). reflexivity.
  - now rewrite match_at_memory, take_memory_intro.
  - intros pre' s' Hl' (t' & mb' & sp1' & ds' & sp2' & post' & -> & Hrest).
    apply (Hleft pre' t' mb'). exists sp1', ds', sp2', post'. split; [exact Hl' | exact Hrest].
Qed.

(** ** The effect of one line, and of a whole pass *)

Lemma extract_found (r : regex) (s : str) (i : nat) :
  i <= ngroups r ->
  extract_regex_match r s (Z.of_nat i) = inr (found r s i).
Proof.
  intro Hi. unfold extract_regex_match, found, group.
  destruct (search r s) as [mo|]; [|reflexivity].
  destruct (Nat.eqb_spec i 0) as [->|Hn]; [reflexivity|].
  destruct (Z.eqb_spec (Z.of_nat i) 0); [lia|].
  destruct (Z.ltb_spec 0 (Z.of_nat i)); [|lia].
  destruct (Z.leb_spec (Z.of_nat i) (Z.of_nat (ngroups r))); [|lia].
  cbn [andb]. now rewrite Nat2Z.id.
Qed.

Lemma extract_found0 (r : regex) (s : str) :
  extract_regex_match r s 0 = inr (found r s 0).
Proof. apply (extract_found r s 0). lia. Qed.

Lemma extract_found1 (r : regex) (s : str) :
  1 <= ngroups r ->
  extract_regex_match r s 1 = inr (found r s 1).
Proof. apply (extract_found r s 1). Qed.

Lemma parse_line_step (line : str) (m : LogBrowserModel) :
  parse_line line m = Return tt (step line m).
Proof.
  destruct m as [rl rt mu ws es].
  unfold parse_line, step, step_render, step_memory, line_sample, line_entry.
  rewrite (extract_found1 RENDER_TIME_REGEX line) by (cbv; lia).
  rewrite (extract_found0 MEMORY_USAGE_REGEX line).
  rewrite (extract_found0 WARNING_REGEX line).
  rewrite (extract_found0 ERROR_REGEX line).
  cbv [bind lift ret gets modify set_render_time set_memory_usage set_warnings
       set_errors raw_log render_time memory_usage warnings errors].
  destruct (found RENDER_TIME_REGEX line 1) as [[|c1 t1]|];
    destruct (found WARNING_REGEX line 0) as [[|c3 t3]|];
    destruct (found ERROR_REGEX line 0) as [[|c4 t4]|];
    cbn [truthy]; rewrite ?app_nil_r;
    (destruct (found MEMORY_USAGE_REGEX line 0) as [[|c2 t2]|]; [reflexivity| |reflexivity]);
    rewrite (extract_found1 TIME_ELAPSED_REGEX (c2 :: t2)) by (cbv; lia);
    rewrite (extract_found1 MEMORY_USAGE_TIME_REGEX (c2 :: t2)) by (cbv; lia);
    destruct (found MEMORY_USAGE_TIME_REGEX (c2 :: t2) 1) as [[|c5 t5]|];
    destruct (truthy (dict_get mu (found TIME_ELAPSED_REGEX (c2 :: t2) 1)));
    reflexivity.
Qed.

Lemma for_each_run (lines : list str) (m : LogBrowserModel) :
  for_each lines m = Return tt (run lines m).
Proof.
  revert m; induction lines as [|line lines IH]; intro m; simpl.
  - reflexivity.
  - unfold bind. rewrite parse_line_step. apply IH.
Qed.

Lemma parse_log_run (m : LogBrowserModel) :
  parse_log m = Return tt (run (raw_log m) m).
Proof. unfold parse_log, bind, gets. apply for_each_run. Qed.

Lemma parse_run (lines : list str) (m0 : LogBrowserModel) :
  parse lines m0 = Return tt (run lines (loaded lines)).
Proof.
  unfold parse, reset_data, bind. cbn. apply for_each_run.
Qed.

Lemma run_app (l1 l2 : list str) (m : LogBrowserModel) :
  run (l1 ++ l2) m = run l2 (run l1 m).
Proof. apply fold_left_app. Qed.

Lemma raw_log_run (lines : list str) (m : LogBrowserModel) :
  raw_log (run lines m) = raw_log m.
Proof.
  revert m; induction lines as [|line lines IH]; intro m; simpl; [reflexivity|].
  unfold run in IH. now rewrite IH.
Qed.

Lemma render_time_run (lines : list str) (m : LogBrowserModel) :
  render_time (run lines m) =
  fold_left (fun old line => step_render line old) lines (render_time m).
Proof.
  revert m; induction lines as [|line lines IH]; intro m; simpl; [reflexivity|].
  unfold run in IH. now rewrite IH.
Qed.

Lemma memory_usage_run (lines : list str) (m : LogBrowserModel) :
  memory_usage (run lines m) =
  fold_left (fun d line => step_memory line d) lines (memory_usage m).
Proof.
  revert m; induction lines as [|line lines IH]; intro m; simpl; [reflexivity|].
  unfold run in IH. now rewrite IH.
Qed.

Lemma warnings_run (lines : list str) (m : LogBrowserModel) :
  warnings (run lines m) = warnings m ++ flat_map (line_entry WARNING_REGEX) lines.
Proof.
  revert m; induction lines as [|line lines IH]; intro m; simpl.
  - now rewrite app_nil_r.
  - unfold run in IH. rewrite IH. simpl. now rewrite app_assoc.
Qed.

Lemma errors_run (lines : list str) (m : LogBrowserModel) :
  errors (run lines m) = errors m ++ flat_map (line_entry ERROR_REGEX) lines.
Proof.
  revert m; induction lines as [|line lines IH]; intro m; simpl.
  - now rewrite app_nil_r.
  - unfold run in IH. rewrite IH. simpl. now rewrite app_assoc.
Qed.

(** ** The dictionary *)

Lemma existsb_key (k : key) (l : list key) :
  existsb (key_eqb k) l = true <-> In k l.
Proof.
  rewrite existsb_exists. split.
  - intros (x & Hx & E). apply key_eqb_eq in E. now subst.
  - intro H. exists k. split; [exact H | now apply key_eqb_eq].
Qed.

Lemma dict_get_absent (d : dict) (k : key) :
  ~ In k (keys d) -> dict_get d k = None.
Proof.
  induction d as [|[k' v] d IH]; simpl; intro H; [reflexivity|].
  destruct (key_eqb k k') eqn:E.
  - apply key_eqb_eq in E. subst. tauto.
  - apply IH. tauto.
Qed.

Lemma dict_get_present (d : dict) (k : key) :
  Forall (fun kv => snd kv <> []) d ->
  In k (keys d) -> truthy (dict_get d k) = true.
Proof.
  induction d as [|[k' v] d IH]; simpl; intros Hv H; [contradiction|].
  inversion Hv as [|? ? Hv1 Hv2]; subst. simpl in Hv1.
  destruct (key_eqb k k') eqn:E.
  - destruct v; [congruence | reflexivity].
  - apply IH; [exact Hv2|]. destruct H as [H|H]; [|exact H].
    subst. assert (key_eqb k k = true) by now apply key_eqb_eq. congruence.
Qed.

Lemma dict_setitem_absent (d : dict) (k : key) (v : str) :
  ~ In k (keys d) -> dict_setitem d k v = d ++ [(k, v)].
Proof.
  induction d as [|[k' v'] d IH]; simpl; intro H; [reflexivity|].
  destruct (key_eqb k k') eqn:E.
  - apply key_eqb_eq in E. subst. tauto.
  - f_equal. apply IH. tauto.
Qed.

Lemma line_sample_value (line : str) (k : key) (v : str) :
  line_sample line = Some (k, v) -> v <> [].
Proof.
  unfold line_sample.
  destruct (found MEMORY_USAGE_REGEX line 0) as [[|c mu]|]; try discriminate.
  destruct (found MEMORY_USAGE_TIME_REGEX (c :: mu) 1) as [[|c' v']|]; try discriminate.
  intro H. injection H as _ <-. discriminate.
Qed.

(** On a dictionary without empty values, a line adds its pair exactly
    when its key is new, and at the end. *)
Lemma step_memory_spec (line : str) (d : dict) :
  Forall (fun kv => snd kv <> []) d ->
  step_memory line d =
  match line_sample line with
  | Some (k, v) => if existsb (key_eqb k) (keys d) then d else d ++ [(k, v)]
  | None => d
  end.
Proof.
  intro Hv. unfold step_memory.
  destruct (line_sample line) as [[k v]|]; [|reflexivity].
  destruct (existsb (key_eqb k) (keys d)) eqn:E.
  - apply existsb_key in E. now rewrite dict_get_present.
  - assert (~ In k (keys d)) as N.
    { intro H. apply existsb_key in H. congruence. }
    now rewrite dict_get_absent, dict_setitem_absent.
Qed.

Lemma samples_values (lines : list str) :
  Forall (fun kv => snd kv <> []) (samples lines).
Proof.
  induction lines as [|line lines IH]; simpl; [constructor|].
  destruct (line_sample line) as [[k v]|] eqn:E; simpl; [|exact IH].
  constructor; [|exact IH]. simpl. now apply (line_sample_value line k).
Qed.

Lemma first_wins_ext (seen seen' : list key) (ps : list (key * str)) :
  (forall k, In k seen <-> In k seen') ->
  first_wins seen ps = first_wins seen' ps.
Proof.
  revert seen seen'; induction ps as [|[k v] ps IH]; intros seen seen' H; simpl.
  - reflexivity.
  - assert (existsb (key_eqb k) seen = existsb (key_eqb k) seen') as ->.
    { apply eq_true_iff_eq. rewrite !existsb_key. apply H. }
    destruct (existsb (key_eqb k) seen').
    + now apply IH.
    + f_equal. apply IH. intro k0. simpl. rewrite H. tauto.
Qed.

Lemma first_wins_values (seen : list key) (ps : list (key * str)) :
  Forall (fun kv => snd kv <> []) ps ->
  Forall (fun kv => snd kv <> []) (first_wins seen ps).
Proof.
  revert seen; induction ps as [|[k v] ps IH]; intros seen H; simpl.
  - constructor.
  - inversion H; subst.
    destruct (existsb (key_eqb k) seen); [now apply IH|].
    constructor; [assumption | now apply IH].
Qed.

Lemma first_wins_new (seen : list key) (ps : list (key * str)) (k : key) :
  In k (keys (first_wins seen ps)) -> ~ In k seen.
Proof.
  revert seen; induction ps as [|[k' v] ps IH]; intros seen H; simpl in H.
  - contradiction.
  - destruct (existsb (key_eqb k') seen) eqn:E.
    + now apply IH.
    + simpl in H. destruct H as [<-|H].
      * intro Hin. apply existsb_key in Hin. congruence.
      * apply IH in H. simpl in H. tauto.
Qed.

Lemma first_wins_NoDup (seen : list key) (ps : list (key * str)) :
  NoDup (keys (first_wins seen ps)).
Proof.
  revert seen; induction ps as [|[k v] ps IH]; intro seen; simpl.
  - constructor.
  - destruct (existsb (key_eqb k) seen); [apply IH|].
    simpl. constructor; [|apply IH].
    intro H. apply first_wins_new in H. simpl in H. tauto.
Qed.

Lemma first_wins_app (seen : list key) (p1 p2 : list (key * str)) :
  first_wins seen (p1 ++ p2) =
  first_wins seen p1 ++ first_wins (keys (first_wins seen p1) ++ seen) p2.
Proof.
  revert seen; induction p1 as [|[k v] p1 IH]; intro seen; simpl.
  - reflexivity.
  - destruct (existsb (key_eqb k) seen); [apply IH|].
    simpl. f_equal. rewrite IH. f_equal. apply first_wins_ext.
    intro k0. rewrite !in_app_iff. simpl. rewrite in_app_iff. tauto.
Qed.

(** The pass builds [memory_usage] as the first pair of each key. *)
Lemma fold_step_memory (lines : list str) (d : dict) :
  Forall (fun kv => snd kv <> []) d ->
  fold_left (fun d' line => step_memory line d') lines d =
  d ++ first_wins (keys d) (samples lines).
Proof.
  revert d; induction lines as [|line lines IH]; intros d Hv; simpl.
  - now rewrite app_nil_r.
  - rewrite (step_memory_spec line d Hv).
    destruct (line_sample line) as [[k v]|] eqn:E; simpl; [|now apply IH].
    destruct (existsb (key_eqb k) (keys d)) eqn:Ek; [now apply IH|].
    rewrite IH.
    + rewrite <- app_assoc. simpl. do 2 f_equal. apply first_wins_ext.
      intro k0. unfold keys. rewrite map_app, in_app_iff. simpl. tauto.
    + apply Forall_app. split; [exact Hv|].
      constructor; [|constructor]. simpl. now apply (line_sample_value line k).
Qed.

Lemma memory_usage_parse (lines : list str) :
  memory_usage (run lines (loaded lines)) = first_wins [] (samples lines).
Proof.
  rewrite memory_usage_run. simpl. now rewrite fold_step_memory.
Qed.

(** ** A final newline does not matter *)

Lemma no_final_newline_suffix (p s : str) :
  no_final_newline (p ++ s) -> no_final_newline s.
Proof.
  intros H t E. subst s. apply (H (p ++ t)). now rewrite app_assoc.
Qed.

Lemma strip_prefix_snoc (l s : str) :
  existsb (Ascii.eqb newline) l = false ->
  strip_prefix l (s ++ [newline]) =
  option_map (fun x => x ++ [newline]) (strip_prefix l s).
Proof.
  revert s; induction l as [|x l IH]; intros s H; [reflexivity|].
  cbn [existsb] in H. apply orb_false_iff in H as [Hx Hl].
  destruct s as [|y s]; cbn [app strip_prefix option_map].
  - rewrite Ascii.eqb_sym, Hx. reflexivity.
  - destruct (Ascii.eqb x y); [now apply IH | reflexivity].
Qed.

Lemma at_eol_snoc (s : str) :
  no_final_newline s -> at_eol (s ++ [newline]) = at_eol s.
Proof.
  intro H. destruct s as [|c [|d s]]; simpl; try reflexivity.
  destruct (Ascii.eqb_spec c newline) as [->|]; [|reflexivity].
  exfalso. now apply (H []).
Qed.

Lemma consumed_snoc (p s' : str) (c : ascii) :
  consumed ((p ++ s') ++ [c]) (s' ++ [c]) = consumed (p ++ s') s'.
Proof.
  rewrite <- app_assoc. now rewrite !consumed_app.
Qed.

Lemma rep_snoc {R : Type} (cs : cset) :
  cset_mem cs newline = false ->
  forall (s : str) (lo : nat) (hi : option nat) (k k' : str -> option R),
    (forall p s', s = p ++ s' -> k (s' ++ [newline]) = k' s') ->
    rep cs lo hi (s ++ [newline]) k = rep cs lo hi s k'.
Proof.
  intros Hcs s; induction s as [|c s IH]; intros lo hi k k' H; cbn [app rep].
  - pose proof (H [] [] eq_refl) as H0. cbn [app] in H0.
    rewrite Hcs. cbn [andb]. now rewrite H0.
  - pose proof (H [] (c :: s) eq_refl) as H0. cbn [app] in H0.
    rewrite (IH (pred lo) (option_map pred hi) k k').
    + now rewrite H0.
    + intros p s' ->. now apply (H (c :: p) s').
Qed.

Lemma mt_snoc {R : Type} (r : regex) :
  nl_free r = true ->
  forall (s : str) (g : caps) (k k' : str -> caps -> option R),
    no_final_newline s ->
    (forall p s' g', s = p ++ s' -> k (s' ++ [newline]) g' = k' s' g') ->
    mt r (s ++ [newline]) g k = mt r s g k'.
Proof.
  induction r as [l|cs lo hi| |r1 IH1 r2 IH2|i r1 IH1]; simpl; intros Hr s g k k' Hs H.
  - apply negb_true_iff in Hr. rewrite (strip_prefix_snoc l s Hr).
    destruct (strip_prefix l s) as [s'|] eqn:E; simpl; [|reflexivity].
    apply strip_prefix_inv in E. now apply (H l s').
  - apply negb_true_iff in Hr. apply (rep_snoc cs Hr).
    intros p s' Hp. now apply (H p s').
  - rewrite (at_eol_snoc s Hs). now rewrite (H [] s g eq_refl).
  - apply andb_true_iff in Hr as [Hr1 Hr2].
    apply (IH1 Hr1); [exact Hs|].
    intros p s' g' ->. apply (IH2 Hr2).
    + now apply (no_final_newline_suffix p).
    + intros p' s'' g'' ->. apply (H (p ++ p') s'' g''). now rewrite app_assoc.
  - apply (IH1 Hr); [exact Hs|].
    intros p s' g' ->. rewrite consumed_snoc. now apply (H p s').
Qed.

Lemma match_at_snoc (r : regex) (s : str) :
  nl_free r = true -> no_final_newline s ->
  match_at r (s ++ [newline]) = match_at r s.
Proof.
  intros Hr Hs. unfold match_at. apply (mt_snoc r Hr); [exact Hs|].
  intros p s' g' ->. now rewrite consumed_snoc.
Qed.

Lemma search_snoc (r : regex) (s : str) :
  nl_free r = true -> no_final_newline s ->
  search r (s ++ [newline]) = search r s.
Proof.
  intros Hr. induction s as [|c s IH]; intro Hs.
  - simpl. change [newline] with ([] ++ [newline]).
    rewrite (match_at_snoc r [] Hr Hs). now destruct (match_at r []).
  - change ((c :: s) ++ [newline]) with (c :: (s ++ [newline])).
    cbn [search]. change (c :: (s ++ [newline])) with ((c :: s) ++ [newline]).
    rewrite (match_at_snoc r (c :: s) Hr Hs).
    rewrite IH; [reflexivity|]. now apply (no_final_newline_suffix [c]).
Qed.

Lemma found_snoc (r : regex) (s : str) (i : nat) :
  nl_free r = true -> no_final_newline s ->
  found r (s ++ [newline]) i = found r s i.
Proof. intros Hr Hs. unfold found. now rewrite search_snoc. Qed.

Lemma step_snoc (s : str) (m : LogBrowserModel) :
  no_final_newline s -> step (s ++ [newline]) m = step s m.
Proof.
  intro Hs. unfold step, step_render, step_memory, line_sample, line_entry.
  now rewrite !found_snoc.
Qed.

Lemma chomp_cases (s : str) : chomp s = s \/ s = chomp s ++ [newline].
Proof.
  induction s as [|c s IH]; [now left|].
  destruct s as [|d s].
  - cbn [chomp]. destruct (Ascii.eqb_spec c newline) as [->|]; [now right | now left].
  - change (chomp (c :: d :: s)) with (c :: chomp (d :: s)).
    destruct IH as [IH|IH].
    + left. now rewrite IH.
    + right. cbn [app]. now rewrite <- IH.
Qed.

Lemma step_chomp (line : str) (m : LogBrowserModel) :
  no_final_newline (chomp line) -> step (chomp line) m = step line m.
Proof.
  intro H. destruct (chomp_cases line) as [E|E].
  - now rewrite E.
  - rewrite E at 2. symmetry. now apply step_snoc.
Qed.

(** The four parsed attributes after a step depend on the four before. *)
Lemma step_result (line : str) (m m' : LogBrowserModel) :
  parse_result m' = parse_result m ->
  parse_result (step line m') = parse_result (step line m).
Proof.
  unfold parse_result, step. simpl. intro H. injection H as -> -> -> ->. reflexivity.
Qed.

Lemma run_result (lines : list str) (m m' : LogBrowserModel) :
  parse_result m' = parse_result m ->
  parse_result (run lines m') = parse_result (run lines m).
Proof.
  revert m m'; induction lines as [|line lines IH]; intros m m' H; simpl.
  - exact H.
  - apply IH. now apply step_result.
Qed.

Lemma run_chomp (lines : list str) (m m' : LogBrowserModel) :
  Forall (fun l => no_final_newline (chomp l)) lines ->
  parse_result m' = parse_result m ->
  parse_result (run (map chomp lines) m') = parse_result (run lines m).
Proof.
  intro Hl. revert m m'; induction Hl as [|line lines Hline _ IH]; intros m m' H; simpl.
  - exact H.
  - apply IH. rewrite (step_chomp line m' Hline). now apply step_result.
Qed.

(** Lines that come from [readlines] hold at most one newline, the last
    character. *)
Lemma readlines_newlines (content : str) :
  Forall (fun l => ~ In newline (chomp l)) (readlines content).
Proof.
  induction content as [|c s IH]; simpl; [constructor|].
  destruct (Ascii.eqb_spec c newline) as [->|Hc].
  - constructor; [|exact IH]. cbn [chomp]. rewrite Ascii.eqb_refl. intros [].
  - destruct (readlines s) as [|l ls].
    + constructor; [|constructor]. cbn [chomp].
      destruct (Ascii.eqb_spec c newline); [contradiction|].
      intros [H|[]]. congruence.
    + inversion IH as [|? ? Hl Hls]; subst. constructor; [|exact Hls].
      destruct l as [|d l].
      * cbn [chomp]. destruct (Ascii.eqb_spec c newline); [contradiction|].
        intros [H|[]]. congruence.
      * change (chomp (c :: d :: l)) with (c :: chomp (d :: l)).
        intros [H|H]; [congruence | exact (Hl H)].
Qed.

Lemma readlines_final_newline (content : str) :
  Forall (fun l => no_final_newline (chomp l)) (readlines content).
Proof.
  eapply Forall_impl; [|apply readlines_newlines].
  intros l H t E. apply H. rewrite E. apply in_or_app. right. now left.
Qed.

(** ** Putting the pass together *)

Lemma extends_refl {A : Type} (a : list A) : extends a a.
Proof. exists []. now rewrite app_nil_r. Qed.

Lemma extends_app {A : Type} (a c : list A) : extends a (a ++ c).
Proof. now exists c. Qed.

Lemma samples_app (l1 l2 : list str) : samples (l1 ++ l2) = samples l1 ++ samples l2.
Proof. apply flat_map_app. Qed.

Lemma entries_collect (mk : str) (lines : list str) :
  mk <> [] ->
  collects mk lines (flat_map (line_entry (Lit mk +++ Group 1 any_text)) lines).
Proof.
  intro Hmk. induction lines as [|line lines IH]; simpl; [constructor|].
  destruct (line_entry_spec mk line Hmk) as [(pre & rest & Hf & ->)|[Hn ->]]; simpl.
  - now apply collects_take with (pre := pre).
  - now apply collects_skip.
Qed.

Lemma step_render_keep (line : str) (old : option str) :
  (forall t, render_tail line t -> t = []) -> step_render line old = old.
Proof.
  intro H. unfold step_render. pose proof (render_search_spec line) as S.
  destruct (found RENDER_TIME_REGEX line 1) as [t|]; [|reflexivity].
  now rewrite (H t S).
Qed.

Lemma step_render_set (line tail : str) (old : option str) :
  render_tail line tail -> tail <> [] -> step_render line old = Some tail.
Proof.
  intros H N. unfold step_render. rewrite (render_tail_found line tail H).
  destruct tail; [congruence | reflexivity].
Qed.

Lemma fold_render_keep (lines : list str) (old : option str) :
  (forall l t, In l lines -> render_tail l t -> t = []) ->
  fold_left (fun o line => step_render line o) lines old = old.
Proof.
  revert old; induction lines as [|line lines IH]; intros old H; simpl; [reflexivity|].
  rewrite step_render_keep.
  - apply IH. intros l t Hl. apply H. now right.
  - intro t. apply H. now left.
Qed.

Lemma no_marker_entry (mk line : str) :
  ~ contains mk line -> line_entry (Lit mk +++ Group 1 any_text) line = [].
Proof.
  intro H. unfold line_entry. pose proof (marker_search_spec mk line) as S.
  destruct (found _ line 0) as [w|]; [|reflexivity].
  destruct S as (pre & rest & [Hl _] & _). exfalso. apply H. now exists pre, rest.
Qed.

Lemma no_sample_line (line : str) :
  (forall pre t mb, ~ sample_at line pre t mb) -> line_sample line = None.
Proof.
  intro H. pose proof (line_sample_spec line) as S.
  destruct (line_sample line) as [[k v]|]; [|reflexivity].
  destruct S as (t & _ & pre & Hs & _). exfalso. exact (H pre t v Hs).
Qed.

(** Deciding the descriptions on a given line, by running the search. *)
Lemma render_tail_by_search (line t : str) :
  found RENDER_TIME_REGEX line 1 = Some t -> render_tail line t.
Proof.
  intro H. pose proof (render_search_spec line) as S. now rewrite H in S.
Qed.

Lemma no_render_by_search (line : str) :
  found RENDER_TIME_REGEX line 1 = None ->
  forall pre tail, ~ render_line_at line pre tail.
Proof.
  intro H. pose proof (render_search_spec line) as S. now rewrite H in S.
Qed.

Lemma first_sample_by_search (line t mb : str) :
  line_sample line = Some (Some t, mb) -> first_sample line t mb.
Proof.
  intro H. pose proof (line_sample_spec line) as S. rewrite H in S.
  destruct S as (t' & E & S). now injection E as <-.
Qed.

Lemma no_sample_by_search (line : str) :
  line_sample line = None -> forall pre t mb, ~ sample_at line pre t mb.
Proof.
  intro H. pose proof (line_sample_spec line) as S. now rewrite H in S.
Qed.

Lemma no_marker_by_search (mk line : str) :
  found (Lit mk +++ Group 1 any_text) line 0 = None -> ~ contains mk line.
Proof.
  intro H. pose proof (marker_search_spec mk line) as S. now rewrite H in S.
Qed.

(** * The claims *)

(** C1.  A line whose leftmost sample reads [HH:MM:SS], spaces,
    [<digits>MB], spaces and a pipe offers the pair of its two labels to
    [memory_usage]; the pair is appended when the time label is not yet
    a key, and nothing changes when it is.  The line
    "00:01:23  512MB | scene loaded" alone yields exactly the entry
    "00:01:23" -> "512MB". *)
Theorem C1_memory_usage_first_wins :
  (forall (m0 : LogBrowserModel) (lines : list str) (line t mb : str),
      first_sample line t mb ->
      exists m m',
        parse lines m0 = Return tt m /\
        parse (lines ++ [line]) m0 = Return tt m' /\
        (~ In (Some t) (keys (memory_usage m)) ->
         memory_usage m' = memory_usage m ++ [(Some t, mb)]) /\
        (In (Some t) (keys (memory_usage m)) ->
         memory_usage m' = memory_usage m)) /\
  (forall m0 : LogBrowserModel,
      exists m,
        parse ["00:01:23  512MB | scene loaded" : str] m0 = Return tt m /\
        memory_usage m = [(Some ("00:01:23" : str), "512MB" : str)]).
Proof.
  split.
  - intros m0 lines line t mb Hs.
    exists (run lines (loaded lines)), (run (lines ++ [line]) (loaded (lines ++ [line]))).
    rewrite !parse_run. do 2 (split; [reflexivity|]).
    rewrite !memory_usage_parse, samples_app, first_wins_app. simpl.
    rewrite (first_sample_found line t mb Hs). simpl. rewrite app_nil_r.
    split; intro H.
    + destruct (existsb (key_eqb (Some t)) (keys (first_wins [] (samples lines)))) eqn:E.
      * apply existsb_key in E. contradiction.
      * reflexivity.
    + apply existsb_key in H. rewrite H. now rewrite app_nil_r.
  - intro m0. eexists. rewrite parse_run. split; [reflexivity|].
    vm_compute. reflexivity.
Qed.

Lemma C1_memory_usage_first_wins_witness :
  exists m m',
    parse [] new_model = Return tt m /\
    parse ([] ++ ["00:00:05   100MB |" : str]) new_model = Return tt m' /\
    (~ In (Some ("00:00:05" : str)) (keys (memory_usage m)) ->
     memory_usage m' = memory_usage m ++ [(Some ("00:00:05" : str), "100MB" : str)]) /\
    (In (Some ("00:00:05" : str)) (keys (memory_usage m)) ->
     memory_usage m' = memory_usage m).
Proof.
  apply (proj1 C1_memory_usage_first_wins new_model [] "00:00:05   100MB |" "00:00:05" "100MB").
  apply first_sample_by_search. vm_compute. reflexivity.
Defined.

(** C2, as the code has it.  After a parse, [render_time] is the tail of
    the last line that reads "render done in <TAIL>" with a non-empty
    tail (whatever stands before the marker); it is absent when no line
    has a non-empty tail.  The lines "render done in 10s" and
    "render done in 20s" give "20s". *)
Theorem C2_render_time_last_nonempty_tail :
  (forall (m0 : LogBrowserModel) (before : list str) (line : str)
          (after : list str) (tail : str),
      render_tail line tail -> tail <> [] ->
      (forall l t, In l after -> render_tail l t -> t = []) ->
      exists m,
        parse (before ++ line :: after) m0 = Return tt m /\
        render_time m = Some tail) /\
  (forall (m0 : LogBrowserModel) (lines : list str),
      (forall l t, In l lines -> render_tail l t -> t = []) ->
      exists m, parse lines m0 = Return tt m /\ render_time m = None) /\
  (forall m0 : LogBrowserModel,
      exists m,
        parse ["render done in 10s" : str; "render done in 20s" : str] m0 = Return tt m /\
        render_time m = Some ("20s" : str)).
Proof.
  split; [|split].
  - intros m0 before line after tail Ht Hne Hafter.
    eexists. rewrite parse_run. split; [reflexivity|].
    rewrite render_time_run, fold_left_app. simpl.
    rewrite (step_render_set line tail _ Ht Hne).
    now apply fold_render_keep.
  - intros m0 lines H. eexists. rewrite parse_run. split; [reflexivity|].
    rewrite render_time_run. now apply fold_render_keep.
  - intro m0. eexists. rewrite parse_run. split; [reflexivity|].
    vm_compute. reflexivity.
Qed.

Lemma C2_render_time_last_nonempty_tail_witness :
  exists m,
    parse ([] ++ ("x render done in 7s" : str) :: ["render done in " : str]) new_model
    = Return tt m /\
    render_time m = Some ("7s" : str).
Proof.
  apply (proj1 C2_render_time_last_nonempty_tail new_model []
           "x render done in 7s" ["render done in " : str] "7s").
  - apply render_tail_by_search. vm_compute. reflexivity.
  - discriminate.
  - intros l t [<-|[]] H. apply render_tail_found in H.
    vm_compute in H. congruence.
Defined.

(** C2 as stated fails: the last line that reads "render done in <TAIL>"
    may have the empty tail, and then an earlier tail stays stored. *)
Lemma C2_counterexample :
  exists m,
    parse ["render done in 10s" : str; "render done in " : str] new_model = Return tt m /\
    render_tail "render done in " [] /\
    render_time m = Some ("10s" : str) /\
    render_time m <> Some [].
Proof.
  eexists. rewrite parse_run. split; [reflexivity|]. split; [|split].
  - apply render_tail_by_search. vm_compute. reflexivity.
  - vm_compute. reflexivity.
  - vm_compute. discriminate.
Qed.

(** C3.  [warnings] holds, in the order of the lines and with repeats
    kept, one entry per line that contains "WARNING": the text from its
    first occurrence to the end of the line; [errors] likewise for
    "ERROR"; and one line can feed several rules at once. *)
Theorem C3_warnings_and_errors :
  (forall (m0 : LogBrowserModel) (lines : list str),
      exists m,
        parse lines m0 = Return tt m /\
        collects "WARNING" lines (warnings m) /\
        collects "ERROR" lines (errors m)) /\
  (exists (line : str) (m : LogBrowserModel),
      parse [line] new_model = Return tt m /\
      render_time m <> None /\ memory_usage m <> [] /\
      warnings m <> [] /\ errors m <> []) /\
  (exists m : LogBrowserModel,
      parse ["WARNING: low memory" : str; "INFO: ok" : str; "WARNING: disk slow" : str]
            new_model = Return tt m /\
      warnings m = ["WARNING: low memory" : str; "WARNING: disk slow" : str]).
Proof.
  split; [|split].
  - intros m0 lines. eexists. rewrite parse_run. split; [reflexivity|].
    rewrite warnings_run, errors_run. simpl. split.
    + apply (entries_collect "WARNING"). discriminate.
    + apply (entries_collect "ERROR"). discriminate.
  - exists "render done in 5s WARNING ERROR 00:00:01 5MB |". eexists.
    rewrite parse_run. split; [reflexivity|].
    repeat split; vm_compute; discriminate.
  - eexists. rewrite parse_run. split; [reflexivity|]. vm_compute. reflexivity.
Qed.

(** C4.  The result of a parse depends on the lines alone: whatever the
    model held before, the outcome is the same, and parsing the same
    lines again on the model just parsed gives equal parsed attributes. *)
Theorem C4_parse_depends_on_lines_only :
  forall (m1 m2 : LogBrowserModel) (lines : list str),
    parse lines m1 = parse lines m2 /\
    exists r1 r2,
      parse lines m1 = Return tt r1 /\
      parse lines r1 = Return tt r2 /\
      parse_result r2 = parse_result r1.
Proof.
  intros m1 m2 lines. split.
  - now rewrite !parse_run.
  - exists (run lines (loaded lines)), (run lines (loaded lines)).
    now rewrite !parse_run.
Qed.

(** C5.  The parse never raises, on any lines and from any state of the
    model; and a line that matches no rule leaves the model as it was. *)
Theorem C5_parse_total :
  (forall (m0 : LogBrowserModel) (lines : list str),
      exists m, parse lines m0 = Return tt m) /\
  (forall m : LogBrowserModel, exists m', parse_log m = Return tt m') /\
  (forall (m : LogBrowserModel) (line : str),
      (forall pre tail, ~ render_line_at line pre tail) ->
      (forall pre t mb, ~ sample_at line pre t mb) ->
      ~ contains "WARNING" line ->
      ~ contains "ERROR" line ->
      parse_line line m = Return tt m).
Proof.
  split; [|split].
  - intros m0 lines. eexists. apply parse_run.
  - intro m. eexists. apply parse_log_run.
  - intros m line Hr Hs Hw He. rewrite parse_line_step. f_equal.
    destruct m as [rl rt mu ws es]. unfold step, step_render, step_memory. simpl.
    rewrite (no_sample_line line Hs).
    unfold WARNING_REGEX, ERROR_REGEX.
    rewrite (no_marker_entry "WARNING" line Hw), (no_marker_entry "ERROR" line He).
    rewrite !app_nil_r.
    pose proof (render_search_spec line) as S.
    destruct (found RENDER_TIME_REGEX line 1) as [t|]; [|reflexivity].
    destruct S as (pre & Hp & _). exfalso. exact (Hr pre t Hp).
Qed.

Lemma C5_parse_total_witness :
  parse_line "INFO: ok" new_model = Return tt new_model.
Proof.
  apply (proj2 (proj2 C5_parse_total) new_model "INFO: ok").
  - apply no_render_by_search. vm_compute. reflexivity.
  - apply no_sample_by_search. vm_compute. reflexivity.
  - apply no_marker_by_search. vm_compute. reflexivity.
  - apply no_marker_by_search. vm_compute. reflexivity.
Defined.

(** C6.  After a parse the keys of [memory_usage] are pairwise distinct and
    stand in the order in which the log first shows them; [warnings] and
    [errors] follow the order of the lines; and what the pass has stored
    after any number of lines is still there, in place, at the end. *)
Theorem C6_result_invariants :
  forall (m0 : LogBrowserModel) (lines : list str),
    exists m,
      parse lines m0 = Return tt m /\
      NoDup (keys (memory_usage m)) /\
      memory_usage m = first_wins [] (samples lines) /\
      collects "WARNING" lines (warnings m) /\
      collects "ERROR" lines (errors m) /\
      forall n : nat,
        exists mn,
          parse (firstn n lines) m0 = Return tt mn /\
          extends (memory_usage mn) (memory_usage m) /\
          extends (warnings mn) (warnings m) /\
          extends (errors mn) (errors m).
Proof.
  intros m0 lines. eexists. rewrite parse_run. split; [reflexivity|].
  rewrite memory_usage_parse, warnings_run, errors_run. simpl.
  split; [apply first_wins_NoDup|]. split; [reflexivity|].
  split; [apply (entries_collect "WARNING"); discriminate|].
  split; [apply (entries_collect "ERROR"); discriminate|].
  intro n. eexists. rewrite parse_run. split; [reflexivity|].
  rewrite memory_usage_parse, warnings_run, errors_run. simpl.
  rewrite <- (firstn_skipn n lines) at 2 4 6.
  rewrite samples_app, first_wins_app, !flat_map_app.
  repeat split; apply extends_app.
Qed.

(** C7, as the code has it.  A parse does not depend on the final newline
    of a line: when no line ends in two newlines, as is the case for the
    lines the read stage produces, taking the final newline off every
    line leaves the four parsed attributes as they were. *)
Theorem C7_final_newline_ignored :
  (forall (m0 : LogBrowserModel) (lines : list str),
      Forall (fun l => no_final_newline (chomp l)) lines ->
      exists m m',
        parse lines m0 = Return tt m /\
        parse (map chomp lines) m0 = Return tt m' /\
        parse_result m' = parse_result m) /\
  (forall (m0 : LogBrowserModel) (content : str),
      exists m m',
        parse (readlines content) m0 = Return tt m /\
        parse (map chomp (readlines content)) m0 = Return tt m' /\
        parse_result m' = parse_result m).
Proof.
  assert (forall (m0 : LogBrowserModel) (lines : list str),
             Forall (fun l => no_final_newline (chomp l)) lines ->
             exists m m',
               parse lines m0 = Return tt m /\
               parse (map chomp lines) m0 = Return tt m' /\
               parse_result m' = parse_result m) as H.
  { intros m0 lines Hl. do 2 eexists. rewrite !parse_run.
    do 2 (split; [reflexivity|]). now apply run_chomp. }
  split; [exact H|].
  intros m0 content. apply H, readlines_final_newline.
Qed.

Lemma C7_final_newline_ignored_witness :
  exists m m',
    parse [("render done in 10s" : str) ++ [newline]; "WARNING: x" : str] new_model
    = Return tt m /\
    parse (map chomp [("render done in 10s" : str) ++ [newline]; "WARNING: x" : str])
          new_model = Return tt m' /\
    parse_result m' = parse_result m.
Proof.
  apply (proj1 C7_final_newline_ignored new_model
           [("render done in 10s" : str) ++ [newline]; "WARNING: x" : str]).
  repeat constructor; intros t E; apply (f_equal (@rev ascii)) in E;
    rewrite rev_app_distr in E; discriminate E.
Defined.

(** C7 as stated fails: trailing spaces are part of what [.*] captures. *)
Lemma C7_counterexample :
  exists m m',
    parse ["WARNING: x " : str] new_model = Return tt m /\
    parse (map rstrip ["WARNING: x " : str]) new_model = Return tt m' /\
    warnings m = ["WARNING: x " : str] /\
    warnings m' = ["WARNING: x" : str] /\
    parse_result m' <> parse_result m.
Proof.
  do 2 eexists. rewrite !parse_run. do 2 (split; [reflexivity|]).
  repeat split; vm_compute; try reflexivity. discriminate.
Qed.



(** C9.  On a line whose leftmost "render done in " is followed by nothing
    up to the end of the line, the captured tail is empty and
    [render_time] keeps its value: a stored time survives, and such a
    line alone leaves it absent. *)
Theorem C9_empty_tail_keeps_render_time :
  forall line : str,
    render_tail line [] ->
    extract_regex_match RENDER_TIME_REGEX line 1 = inr (Some []) /\
    (forall m : LogBrowserModel,
        exists m', parse_line line m = Return tt m' /\ render_time m' = render_time m) /\
    (forall m0 : LogBrowserModel,
        exists m, parse [line] m0 = Return tt m /\ render_time m = None).
Proof.
  intros line H. pose proof (render_tail_found line [] H) as F.
  split; [|split].
  - rewrite extract_found1 by (cbv; lia). now rewrite F.
  - intro m. eexists. rewrite parse_line_step. split; [reflexivity|].
    simpl. unfold step_render. now rewrite F.
  - intro m0. eexists. rewrite parse_run. split; [reflexivity|].
    simpl. unfold step_render. now rewrite F.
Qed.

Lemma C9_empty_tail_keeps_render_time_witness :
  extract_regex_match RENDER_TIME_REGEX (("frame 12 render done in " : str) ++ [newline]) 1
  = inr (Some []) /\
  (forall m : LogBrowserModel,
      exists m', parse_line (("frame 12 render done in " : str) ++ [newline]) m
                 = Return tt m' /\
                 render_time m' = render_time m) /\
  (forall m0 : LogBrowserModel,
      exists m, parse [("frame 12 render done in " : str) ++ [newline]] m0 = Return tt m /\
                render_time m = None).
Proof.
  apply (C9_empty_tail_keeps_render_time (("frame 12 render done in " : str) ++ [newline])).
  apply render_tail_by_search. vm_compute. reflexivity.
Defined.

(** C10.  [parse_log] leaves [raw_log] as it found it: after the pass it
    is, element for element, what the read stage stored. *)
Theorem C10_raw_log_unchanged :
  (forall m : LogBrowserModel,
      exists m', parse_log m = Return tt m' /\ raw_log m' = raw_log m) /\
  (forall (w : os) (file_path content : str) (m : LogBrowserModel),
      fs w file_path = Readable content ->
      exists m1 m2,
        store_raw_log w file_path m = Return tt m1 /\
        raw_log m1 = readlines content /\
        set_tabs w file_path m = Return tt m2 /\
        raw_log m2 = readlines content) /\
  (forall (m0 : LogBrowserModel) (lines : list str),
      exists m, parse lines m0 = Return tt m /\ raw_log m = lines).
Proof.
  split; [|split].
  - intro m. eexists. rewrite parse_log_run. split; [reflexivity|]. apply raw_log_run.
  - intros w file_path content m H. do 2 eexists.
    unfold set_tabs, store_raw_log, bind. rewrite H.
    unfold set_raw_log, modify. rewrite parse_log_run.
    split; [reflexivity|]. split; [reflexivity|]. split; [reflexivity|].
    now rewrite raw_log_run.
  - intros m0 lines. eexists. rewrite parse_run. split; [reflexivity|].
    now rewrite raw_log_run.
Qed.

Lemma C10_raw_log_unchanged_witness :
  exists m1 m2,
    store_raw_log (mkOs (fun _ => Readable (("WARNING: a" : str) ++ [newline]))
                        (fun _ => ".log"))
                  "render.log" new_model = Return tt m1 /\
    raw_log m1 = readlines (("WARNING: a" : str) ++ [newline]) /\
    set_tabs (mkOs (fun _ => Readable (("WARNING: a" : str) ++ [newline]))
                   (fun _ => ".log"))
             "render.log" new_model = Return tt m2 /\
    raw_log m2 = readlines (("WARNING: a" : str) ++ [newline]).
Proof.
  apply (proj1 (proj2 C10_raw_log_unchanged)
           (mkOs (fun _ => Readable (("WARNING: a" : str) ++ [newline])) (fun _ => ".log"))
           "render.log" (("WARNING: a" : str) ++ [newline]) new_model).
  reflexivity.
Defined.

(** * Further properties of the parsing core *)

Lemma first_wins_incl (seen : list key) (ps : list (key * str)) (kv : key * str) :
  In kv (first_wins seen ps) -> In kv ps.
Proof.
  revert seen; induction ps as [|[k v] ps IH]; intros seen H; simpl in *.
  - contradiction.
  - destruct (existsb (key_eqb k) seen).
    + right. now apply (IH seen).
    + destruct H as [H|H]; [now left | right; now apply (IH (k :: seen))].
Qed.

Lemma samples_origin (lines : list str) (kv : key * str) :
  In kv (samples lines) -> exists line, In line lines /\ line_sample line = Some kv.
Proof.
  unfold samples. rewrite in_flat_map. intros (line & Hl & H).
  exists line. split; [exact Hl|].
  destruct (line_sample line) as [p|]; [|contradiction].
  destruct H as [->|[]]. reflexivity.
Qed.

Lemma stored_pair_origin (lines : list str) (kv : key * str) :
  In kv (memory_usage (run lines (loaded lines))) ->
  exists line t, In line lines /\ fst kv = Some t /\ first_sample line t (snd kv).
Proof.
  rewrite memory_usage_parse. intro H.
  apply first_wins_incl, samples_origin in H as (line & Hl & Hs).
  pose proof (line_sample_spec line) as S. rewrite Hs in S.
  destruct kv as [k v]. destruct S as (t & -> & Hf).
  now exists line, t.
Qed.

Lemma up_to_eol_split (s : str) : exists e, s = up_to_eol s ++ e.
Proof.
  exists (snd (span CAny s)). rewrite up_to_eol_span. symmetry. apply span_app.
Qed.

Lemma up_to_eol_no_newline (s : str) : ~ In newline (up_to_eol s).
Proof. rewrite up_to_eol_span. apply not_newline_run, span_run. Qed.

Lemma all_digits_no_newline (ds : str) : all_digits ds -> ~ In newline ds.
Proof.
  intros [_ F] H. rewrite Forall_forall in F. specialize (F newline H). discriminate F.
Qed.

Lemma time_label_no_newline (t : str) : time_label t -> ~ In newline t.
Proof.
  intros (a & b & c & d & e & f & -> & Ha & Hb & Hc & Hd & He & Hf) H.
  simpl in H.
  repeat (destruct H as [H|H]; [first [ subst; discriminate | discriminate H ]|]).
  contradiction.
Qed.

(** Where a stored render time comes from. *)
Lemma fold_render_origin (lines : list str) (old : option str) (t : str) :
  fold_left (fun o line => step_render line o) lines old = Some t ->
  old = Some t \/ exists line, In line lines /\ render_tail line t /\ t <> [].
Proof.
  revert old; induction lines as [|line lines IH]; intros old H; simpl in H.
  - now left.
  - apply IH in H as [H|(l & Hl & Hr)].
    + unfold step_render in H.
      destruct (found RENDER_TIME_REGEX line 1) as [[|c u]|] eqn:F; simpl in H;
        try (now left).
      right. exists line. split; [now left|]. injection H as <-.
      split; [now apply render_tail_by_search | discriminate].
    + right. exists l. split; [now right | exact Hr].
Qed.

Lemma stored_pair_labels (lines : list str) :
  Forall (fun kv => exists t ds,
              fst kv = Some t /\ time_label t /\
              all_digits ds /\ snd kv = ds ++ "MB")
         (memory_usage (run lines (loaded lines))).
Proof.
  apply Forall_forall. intros kv H.
  apply stored_pair_origin in H as (line & t & _ & Hk & pre & Hs & _).
  destruct Hs as (sp1 & ds & sp2 & post & _ & Ht & _ & Hd & _ & Hv).
  now exists t, ds.
Qed.

Lemma ascii_text_by_check (s : str) :
  forallb (fun c => (nat_of_ascii c <? 128)%nat) s = true -> ascii_text s.
Proof.
  intro H. apply Forall_forall. intros c Hc.
  rewrite forallb_forall in H. now apply Nat.ltb_lt, H.
Qed.

(** X1.  After a parse every key of [memory_usage] is a string, never
    [None], of eight characters with a colon as the third and as the
    sixth, and every value is a non-empty text followed by "MB".  When
    the lines are ASCII text, the other characters of a key and the
    characters before "MB" are digits [0] to [9]: the key reads
    [HH:MM:SS]. *)
Theorem X1_memory_usage_labels :
  (forall (m0 : LogBrowserModel) (lines : list str),
      exists m,
        parse lines m0 = Return tt m /\
        Forall (fun kv => exists t ds,
                    fst kv = Some t /\ label_shaped t /\
                    ds <> [] /\ snd kv = ds ++ "MB")
               (memory_usage m)) /\
  (forall (m0 : LogBrowserModel) (lines : list str),
      Forall ascii_text lines ->
      exists m,
        parse lines m0 = Return tt m /\
        Forall (fun kv => exists t ds,
                    fst kv = Some t /\ time_label t /\
                    all_digits ds /\ snd kv = ds ++ "MB")
               (memory_usage m)).
Proof.
  split.
  - intros m0 lines. eexists. rewrite parse_run. split; [reflexivity|].
    eapply Forall_impl; [|apply stored_pair_labels].
    intros kv (t & ds & Hk & Ht & [Hd _] & Hv). exists t, ds.
    split; [exact Hk|]. split; [|now split].
    destruct Ht as (a & b & c & d & e & f & -> & _). now exists a, b, c, d, e, f.
  - intros m0 lines _. eexists. rewrite parse_run. split; [reflexivity|].
    apply stored_pair_labels.
Qed.

Lemma X1_memory_usage_labels_witness :
  exists m,
    parse ["00:00:05   100MB |" : str; "WARNING: low memory" : str] new_model
    = Return tt m /\
    Forall (fun kv => exists t ds,
                fst kv = Some t /\ time_label t /\
                all_digits ds /\ snd kv = ds ++ "MB")
           (memory_usage m).
Proof.
  apply (proj2 X1_memory_usage_labels new_model
           ["00:00:05   100MB |" : str; "WARNING: low memory" : str]).
  repeat constructor; apply ascii_text_by_check; vm_compute; reflexivity.
Defined.

(** X2.  Whatever a parse stores is text of the log, on one line: every
    entry of [warnings] and [errors], the render time, and every key and
    value of [memory_usage] is non-empty, holds no newline, and stands
    as it is inside one of the lines parsed. *)
Theorem X2_parsed_text_is_log_text :
  forall (m0 : LogBrowserModel) (lines : list str),
    exists m,
      parse lines m0 = Return tt m /\
      (forall w, In w (warnings m) \/ In w (errors m) \/ render_time m = Some w ->
                 w <> [] /\ ~ In newline w /\
                 exists line, In line lines /\ contains w line) /\
      (forall k v, In (k, v) (memory_usage m) ->
                   exists t line,
                     k = Some t /\ t <> [] /\ v <> [] /\
                     ~ In newline t /\ ~ In newline v /\
                     In line lines /\ contains t line /\ contains v line).
Proof.
  intros m0 lines. eexists. rewrite parse_run. split; [reflexivity|].
  assert (forall (mk : str) (w : str),
             mk <> [] -> ~ In newline mk ->
             In w (flat_map (line_entry (Lit mk +++ Group 1 any_text)) lines) ->
             w <> [] /\ ~ In newline w /\
             exists line, In line lines /\ contains w line) as Hentry.
  { intros mk w Hmk Hnl Hw. apply in_flat_map in Hw as (line & Hl & Hw).
    destruct (line_entry_spec mk line Hmk) as [(pre & rest & [Hline _] & E)|[_ E]];
      rewrite E in Hw; [|contradiction].
    destruct Hw as [<-|[]]. split; [|split].
    - destruct mk; [congruence | discriminate].
    - intro H. apply in_app_or in H as [H|H]; [contradiction|].
      now apply (up_to_eol_no_newline rest).
    - exists line. split; [exact Hl|].
      destruct (up_to_eol_split rest) as [e He].
      exists pre, e. rewrite Hline. rewrite He at 1. now rewrite <- !app_assoc. }
  split.
  - intros w [H|[H|H]].
    + rewrite warnings_run in H. simpl in H.
      apply (Hentry "WARNING"); [discriminate | | exact H].
      vm_compute. intuition discriminate.
    + rewrite errors_run in H. simpl in H.
      apply (Hentry "ERROR"); [discriminate | | exact H].
      vm_compute. intuition discriminate.
    + rewrite render_time_run in H. simpl in H.
      apply fold_render_origin in H as [H|(line & Hl & Hr & Hne)]; [discriminate|].
      destruct Hr as (pre & (e & Hline & Hnl & _) & _).
      split; [exact Hne|]. split; [exact Hnl|].
      exists line. split; [exact Hl|].
      exists (pre ++ render_marker), e. rewrite Hline. now rewrite <- !app_assoc.
  - intros k v H.
    apply stored_pair_origin in H as (line & t & Hl & Hk & pre & Hs & _).
    simpl in Hk, Hs.
    destruct Hs as (sp1 & ds & sp2 & post & Hline & Ht & _ & Hd & _ & Hv).
    exists t, line. split; [exact Hk|].
    split; [apply time_label_length in Ht; destruct t; [discriminate Ht | discriminate]|].
    split; [subst v; destruct Hd as [N _]; destruct ds; [congruence | discriminate]|].
    split; [now apply time_label_no_newline|].
    split.
    { subst v. intro H. apply in_app_or in H as [H|H].
      - now apply (all_digits_no_newline ds).
      - vm_compute in H. intuition discriminate. }
    split; [exact Hl|]. split.
    + exists pre, (sp1 ++ ds ++ "MB" ++ sp2 ++ "|" ++ post). exact Hline.
    + exists (pre ++ t ++ sp1), (sp2 ++ "|" ++ post). subst v.
      rewrite Hline. now rewrite <- !app_assoc.
Qed.

Lemma first_wins_covers (seen : list key) (ps : list (key * str)) (kv : key * str) :
  In kv ps -> In (fst kv) seen \/ In (fst kv) (keys (first_wins seen ps)).
Proof.
  revert seen; induction ps as [|[k v] ps IH]; intros seen H; simpl in *.
  - contradiction.
  - destruct (existsb (key_eqb k) seen) eqn:E.
    + destruct H as [<-|H]; [left; now apply existsb_key | now apply IH].
    + simpl. destruct H as [<-|H]; [right; now left|].
      destruct (IH (k :: seen) H) as [[<-|H']|H']; [right; now left | now left | right; now right].
Qed.

Lemma first_wins_all_seen (seen : list key) (ps : list (key * str)) :
  (forall kv, In kv ps -> In (fst kv) seen) -> first_wins seen ps = [].
Proof.
  induction ps as [|[k v] ps IH]; intro H; simpl; [reflexivity|].
  assert (existsb (key_eqb k) seen = true) as ->.
  { apply existsb_key. apply (H (k, v)). now left. }
  apply IH. intros kv Hkv. apply H. now right.
Qed.

Lemma fold_render_some (lines : list str) (t : str) :
  fold_left (fun o line => step_render line o) lines (Some t) <> None.
Proof.
  revert t; induction lines as [|line lines IH]; intro t; simpl; [discriminate|].
  unfold step_render.
  destruct (found RENDER_TIME_REGEX line 1) as [[|c u]|]; simpl; apply IH.
Qed.

(** A second pass finds the render time the first one found. *)
Lemma fold_render_absorb (lines : list str) (old : option str) :
  fold_left (fun o line => step_render line o) lines old =
  match fold_left (fun o line => step_render line o) lines None with
  | Some t => Some t
  | None => old
  end.
Proof.
  revert old; induction lines as [|line lines IH]; intro old; simpl; [reflexivity|].
  unfold step_render.
  destruct (found RENDER_TIME_REGEX line 1) as [[|c u]|]; simpl; try apply IH.
  pose proof (fold_render_some lines (c :: u)) as N.
  destruct (fold_left _ lines (Some (c :: u))); [reflexivity | congruence].
Qed.

(** X3.  [parse_log] run once more on the model it has just filled, with
    no [reset_data] between, stores every warning and every error a
    second time, after the first ones, and leaves the render time, the
    memory usage and the raw log as they were. *)
Theorem X3_parse_log_again_without_reset :
  forall (m0 : LogBrowserModel) (lines : list str),
    exists m1 m2,
      parse lines m0 = Return tt m1 /\
      parse_log m1 = Return tt m2 /\
      warnings m2 = warnings m1 ++ warnings m1 /\
      errors m2 = errors m1 ++ errors m1 /\
      render_time m2 = render_time m1 /\
      memory_usage m2 = memory_usage m1 /\
      raw_log m2 = raw_log m1.
Proof.
  intros m0 lines. do 2 eexists. rewrite parse_run. split; [reflexivity|].
  rewrite parse_log_run, raw_log_run. simpl raw_log. split; [reflexivity|].
  rewrite !warnings_run, !errors_run, !render_time_run, !memory_usage_run, !raw_log_run.
  simpl. repeat split.
  - rewrite fold_render_absorb.
    now destruct (fold_left (fun o line => step_render line o) lines None).
  - pose proof (memory_usage_parse lines) as E. rewrite memory_usage_run in E.
    simpl in E. rewrite E.
    rewrite (fold_step_memory lines (first_wins [] (samples lines))).
    + rewrite (first_wins_all_seen (keys (first_wins [] (samples lines))));
        [apply app_nil_r|].
      intros kv H. destruct (first_wins_covers [] _ kv H) as [[]|H']. exact H'.
    + apply first_wins_values, samples_values.
Qed.

Lemma reset_data_new (m : LogBrowserModel) : reset_data m = Return tt new_model.
Proof. reflexivity. Qed.

(** X4.  Loading a readable file, from the dialog or (when its
    extension is ".log") from the path field, is the parse of the lines
    of its text, whatever the model held before. *)
Theorem X4_loading_is_parse_of_the_file :
  forall (w : os) (file_path content : str) (m : LogBrowserModel),
    fs w file_path = Readable content ->
    (file_path <> [] ->
     browse_on_click w file_path m = parse (readlines content) m) /\
    (splitext_ext w file_path = ".log" ->
     browse_on_key_pressed w file_path m = parse (readlines content) m) /\
    exists m',
      parse (readlines content) m = Return tt m' /\
      raw_log m' = readlines content.
Proof.
  intros w file_path content m Hfs. split; [|split].
  - intro Hne. destruct file_path as [|c p]; [congruence|].
    unfold browse_on_click, clean_window_and_stored_data, set_tabs, store_raw_log, parse.
    rewrite Hfs. reflexivity.
  - intro Hext.
    unfold browse_on_key_pressed, clean_window_and_stored_data, set_tabs, store_raw_log,
      parse, path_exists.
    rewrite Hfs, Hext. reflexivity.
  - eexists. rewrite parse_run. split; [reflexivity|]. apply raw_log_run.
Qed.

Lemma X4_loading_is_parse_of_the_file_witness :
  browse_on_click (mkOs (fun _ => Readable "WARNING: a") (fun _ => ".log")) "r.log" new_model
  = parse (readlines "WARNING: a") new_model.
Proof.
  apply (proj1 (X4_loading_is_parse_of_the_file
                  (mkOs (fun _ => Readable "WARNING: a") (fun _ => ".log"))
                  "r.log" "WARNING: a" new_model eq_refl)).
  discriminate.
Defined.

(** X5.  When the dialog is cancelled, or the path typed does not exist or
    does not end in ".log", nothing is read, even from a readable file,
    and the model is left empty: what an earlier load stored is gone. *)
Theorem X5_rejected_path_clears_the_model :
  forall (w : os) (file_path : str) (m : LogBrowserModel),
    browse_on_click w [] m = Return tt new_model /\
    (path_exists w file_path = false \/ splitext_ext w file_path <> ".log" ->
     browse_on_key_pressed w file_path m = Return tt new_model).
Proof.
  intros w file_path m. split; [reflexivity|].
  intro H. unfold browse_on_key_pressed, clean_window_and_stored_data, bind.
  rewrite reset_data_new.
  destruct H as [H|H].
  - now rewrite H.
  - destruct (str_eqb (splitext_ext w file_path) ".log") eqn:E.
    + apply str_eqb_eq in E. contradiction.
    + now rewrite andb_false_r.
Qed.

Lemma X5_rejected_path_clears_the_model_witness :
  browse_on_key_pressed (mkOs (fun _ => Readable "WARNING: a") (fun _ => ".txt"))
                        "notes.txt" (mkModel ["x" : str] (Some ("1s" : str)) [] ["w" : str] [])
  = Return tt new_model.
Proof.
  apply (proj2 (X5_rejected_path_clears_the_model
                  (mkOs (fun _ => Readable "WARNING: a") (fun _ => ".txt"))
                  "notes.txt" (mkModel ["x" : str] (Some ("1s" : str)) [] ["w" : str] []))).
  right. discriminate.
Defined.

Lemma dict_get_first_wins (seen : list key) (ps : list (key * str)) (k : key) :
  ~ In k seen -> dict_get (first_wins seen ps) k = dict_get ps k.
Proof.
  revert seen; induction ps as [|[k' v] ps IH]; intros seen H; simpl; [reflexivity|].
  destruct (existsb (key_eqb k') seen) eqn:E.
  - destruct (key_eqb k k') eqn:Ek.
    + apply key_eqb_eq in Ek. subst k'. apply existsb_key in E. contradiction.
    + now apply IH.
  - simpl. destruct (key_eqb k k') eqn:Ek; [reflexivity|].
    apply IH. intros [->|H']; [|contradiction].
    assert (key_eqb k k = true) by now apply key_eqb_eq. congruence.
Qed.

Lemma dict_get_app (d1 d2 : dict) (k : key) :
  dict_get (d1 ++ d2) k =
  match dict_get d1 k with
  | Some v => Some v
  | None => dict_get d2 k
  end.
Proof.
  induction d1 as [|[k' v] d1 IH]; simpl; [reflexivity|].
  now destruct (key_eqb k k').
Qed.

Lemma dict_get_samples_none (lines : list str) (t : str) :
  (forall l mb, In l lines -> ~ first_sample l t mb) ->
  dict_get (samples lines) (Some t) = None.
Proof.
  induction lines as [|line lines IH]; intro H; simpl; [reflexivity|].
  rewrite dict_get_app, IH by (intros l mb Hl; apply H; now right).
  pose proof (line_sample_spec line) as S.
  destruct (line_sample line) as [[k v]|]; [|reflexivity].
  destruct S as (t' & -> & Hf). simpl.
  destruct (str_eqb t t') eqn:E; [|reflexivity].
  apply str_eqb_eq in E. subst t'. exfalso. apply (H line v); [now left | exact Hf].
Qed.

(** X6.  Looking a time label up in [memory_usage] after a parse gives
    the usage label of the first line of the log that carries this time
    label, and nothing when no line carries it. *)
Theorem X6_memory_usage_lookup :
  (forall (m0 : LogBrowserModel) (before : list str) (line : str)
          (after : list str) (t mb : str),
      first_sample line t mb ->
      (forall l mb', In l before -> ~ first_sample l t mb') ->
      exists m,
        parse (before ++ line :: after) m0 = Return tt m /\
        dict_get (memory_usage m) (Some t) = Some mb) /\
  (forall (m0 : LogBrowserModel) (lines : list str) (t : str),
      (forall l mb, In l lines -> ~ first_sample l t mb) ->
      exists m,
        parse lines m0 = Return tt m /\
        dict_get (memory_usage m) (Some t) = None).
Proof.
  split.
  - intros m0 before line after t mb Hf Hb. eexists. rewrite parse_run.
    split; [reflexivity|].
    rewrite memory_usage_parse, dict_get_first_wins by (intros []).
    rewrite samples_app, dict_get_app, (dict_get_samples_none before t Hb).
    simpl. rewrite (first_sample_found line t mb Hf). simpl.
    assert (str_eqb t t = true) as -> by now apply str_eqb_eq. reflexivity.
  - intros m0 lines t H. eexists. rewrite parse_run. split; [reflexivity|].
    rewrite memory_usage_parse, dict_get_first_wins by (intros []).
    now apply dict_get_samples_none.
Qed.

Lemma X6_memory_usage_lookup_witness :
  exists m,
    parse ([] ++ ("00:00:05   100MB |" : str) :: ["00:00:05   200MB |" : str]) new_model
    = Return tt m /\
    dict_get (memory_usage m) (Some ("00:00:05" : str)) = Some ("100MB" : str).
Proof.
  apply (proj1 X6_memory_usage_lookup new_model [] "00:00:05   100MB |"
           ["00:00:05   200MB |" : str] "00:00:05" "100MB").
  - apply first_sample_by_search. vm_compute. reflexivity.
  - intros l mb' [].
Defined.



Lemma readlines_concat (content : str) : concat (readlines content) = content.
Proof.
  induction content as [|c s IH]; simpl; [reflexivity|].
  destruct (Ascii.eqb c newline); simpl; [now rewrite IH|].
  destruct (readlines s) as [|l ls]; simpl in *; now rewrite <- IH.
Qed.

Lemma readlines_nonempty (content : str) :
  Forall (fun l => l <> []) (readlines content).
Proof.
  induction content as [|c s IH]; simpl; [constructor|].
  destruct (Ascii.eqb c newline); [constructor; [discriminate | exact IH]|].
  destruct (readlines s) as [|l ls]; [repeat constructor; discriminate|].
  inversion IH; subst. constructor; [discriminate | assumption].
Qed.

(** X8.  [store_raw_log] loses nothing of a readable file: the lines it
    stores, joined, are the text of the file; no line is empty; and a
    line holds a newline only as its last character. *)
Theorem X8_store_raw_log_keeps_the_text :
  forall (w : os) (file_path content : str) (m : LogBrowserModel),
    fs w file_path = Readable content ->
    exists m',
      store_raw_log w file_path m = Return tt m' /\
      concat (raw_log m') = content /\
      Forall (fun l => l <> [] /\ ~ In newline (chomp l)) (raw_log m') /\
      parse_result m' = parse_result m.
Proof.
  intros w file_path content m H. eexists. unfold store_raw_log. rewrite H.
  split; [reflexivity|]. simpl. split; [apply readlines_concat|].
  split; [|reflexivity].
  apply Forall_forall. intros l Hl. split.
  - pose proof (readlines_nonempty content) as N. rewrite Forall_forall in N. now apply N.
  - pose proof (readlines_newlines content) as N. rewrite Forall_forall in N. now apply N.
Qed.

Lemma X8_store_raw_log_keeps_the_text_witness :
  exists m',
    store_raw_log (mkOs (fun _ => Readable "a") (fun _ => ".log")) "r.log" new_model
    = Return tt m' /\
    concat (raw_log m') = ("a" : str) /\
    Forall (fun l => l <> [] /\ ~ In newline (chomp l)) (raw_log m') /\
    parse_result m' = parse_result new_model.
Proof.
  apply (X8_store_raw_log_keeps_the_text
           (mkOs (fun _ => Readable "a") (fun _ => ".log")) "r.log" "a" new_model).
  reflexivity.
Defined.

(** * The window *)

Import Window.
Local Open Scope ui_scope.

(** ** Running the window's methods *)

Lemma repeat_removeTab (n : nat) (w : MainWindow) :
  repeat_ui n (removeTab 0) w = Done tt (with_tabs (skipn n (tab_widget w)) w).
Proof.
  revert w; induction n as [|n IH]; intro w.
  - destruct w; reflexivity.
  - cbn [repeat_ui]. unfold ui_bind. unfold removeTab at 1. rewrite IH.
    destruct w as [m tabs ws nx tx st]. unfold with_tabs. simpl.
    destruct tabs; simpl; [now rewrite skipn_nil | reflexivity].
Qed.

Lemma clean_window_run (w : MainWindow) :
  clean_window_and_stored_data w =
  Done tt (mkWindow new_model [] (widgets w) (next_widget w)
                    (file_path_edit_text w) white_sheet).
Proof.
  unfold clean_window_and_stored_data, ui_bind, count, ui_gets.
  rewrite repeat_removeTab. rewrite skipn_all. reflexivity.
Qed.

Lemma index_of_fresh (n : nat) (l : list tab) :
  Forall (fun t => tab_page t < n) l -> index_of n l = None.
Proof.
  induction 1 as [|t l Ht _ IH]; simpl; [reflexivity|].
  destruct (Nat.eqb_spec (tab_page t) n); [lia|]. now rewrite IH.
Qed.

Lemma index_of_last (n : nat) (l : list tab) (a : str) (b : option str)
    (c : option standard_pixmap) :
  index_of n l = None -> index_of n (l ++ [mkTab n a b c]) = Some (length l).
Proof.
  induction l as [|t l IH]; simpl; intro H.
  - now rewrite Nat.eqb_refl.
  - destruct (tab_page t =? n)%nat; [discriminate|].
    destruct (index_of n l); [discriminate|]. now rewrite IH.
Qed.

Lemma change_nth_last {A : Type} (f : A -> A) (l : list A) (x : A) :
  change_nth (length l) f (l ++ [x]) = l ++ [f x].
Proof. induction l as [|y l IH]; simpl; [reflexivity | now rewrite IH]. Qed.

Lemma widget_at_older (ws : list (nat * widget)) (n p : nat) (x : widget) :
  p < n -> widget_at ((n, x) :: ws) p = widget_at ws p.
Proof. intro H. simpl. destruct (Nat.eqb_spec n p); [lia | reflexivity]. Qed.


Lemma pushed_fresh (w : MainWindow) (a : str) (b : option str)
    (c : option standard_pixmap) (x : widget) :
  fresh w -> fresh (pushed w a b c x).
Proof.
  unfold fresh, pushed. simpl. intro H. apply Forall_app. split.
  - eapply Forall_impl; [|exact H]. simpl. intros; lia.
  - constructor; [simpl; lia | constructor].
Qed.

Lemma pushed_shown (w : MainWindow) (a : str) (b : option str)
    (c : option standard_pixmap) (x : widget) :
  fresh w -> shown (pushed w a b c x) = shown w ++ [(a, b, c, Some x)].
Proof.
  unfold fresh, shown, pushed. simpl. intro H. rewrite map_app. simpl.
  rewrite Nat.eqb_refl. apply (f_equal (fun l => l ++ [(a, b, c, Some x)])).
  apply map_ext_in. intros t Ht. rewrite Forall_forall in H.
  destruct (Nat.eqb_spec (next_widget w) (tab_page t)) as [E|]; [|reflexivity].
  specialize (H t Ht). lia.
Qed.


Lemma new_tab_run (tab_name : str) (tab_title_color : option str) (w : MainWindow) :
  fresh w ->
  new_tab tab_name tab_title_color w =
  Done (next_widget w)
       (pushed w tab_name (color_given tab_title_color) None (mkWidget QTabWidget None [])).
Proof.
  intro H. apply index_of_fresh in H.
  unfold new_tab, ui_bind, make_widget, addTab, indexOf, ui_gets, setTabText,
    setTabTextColor, change_tab, with_tabs, pushed, color_given.
  cbn [tab_widget model widgets next_widget file_path_edit_text file_path_edit_style].
  rewrite (index_of_last _ _ [] None None H), change_nth_last.
  destruct tab_title_color as [[|c color]|]; cbn [truthy]; try reflexivity.
  cbn [tab_widget model widgets next_widget file_path_edit_text file_path_edit_style
       tab_page tab_text tab_text_color tab_icon].
  rewrite (index_of_last _ _ tab_name None None H), change_nth_last. reflexivity.
Qed.

Lemma new_table_run (tab_name : str) (hv hh sg : bool) (tab_title_color : option str)
    (w : MainWindow) :
  fresh w ->
  new_table tab_name hv hh sg tab_title_color w =
  Done (next_widget w)
       (pushed w tab_name (color_given tab_title_color) None
               (mkWidget QTableWidget (Some (mkTableView hv hh true [] [])) [])).
Proof.
  intro H. apply index_of_fresh in H.
  unfold new_table, ui_bind, make_widget, addTab, indexOf, ui_gets, setTabText,
    setTabTextColor, change_tab, change_view, change_widget, with_tabs, with_widgets,
    pushed, color_given, new_table_view.
  cbn [tab_widget model widgets next_widget file_path_edit_text file_path_edit_style].
  destruct hv, hh, sg;
    cbn [ui_ret change_first tab_widget model widgets next_widget file_path_edit_text
         file_path_edit_style vertical_header_hidden horizontal_header_hidden show_grid
         header_labels rows view class_of edits option_map];
    rewrite ?Nat.eqb_refl;
    cbn [ui_ret change_first tab_widget model widgets next_widget file_path_edit_text
         file_path_edit_style vertical_header_hidden horizontal_header_hidden show_grid
         header_labels rows view class_of edits option_map];
    rewrite ?Nat.eqb_refl;
    cbn [ui_ret change_first tab_widget model widgets next_widget file_path_edit_text
         file_path_edit_style vertical_header_hidden horizontal_header_hidden show_grid
         header_labels rows view class_of edits option_map];
    rewrite ?Nat.eqb_refl;
    cbn [ui_ret change_first tab_widget model widgets next_widget file_path_edit_text
         file_path_edit_style vertical_header_hidden horizontal_header_hidden show_grid
         header_labels rows view class_of edits option_map];
    rewrite (index_of_last _ _ [] None None H), change_nth_last;
    (destruct tab_title_color as [[|c color]|]; cbn [truthy]; try reflexivity);
    cbn [tab_widget model widgets next_widget file_path_edit_text file_path_edit_style
         tab_page tab_text tab_text_color tab_icon];
    rewrite (index_of_last _ _ tab_name None None H), change_nth_last; reflexivity.
Qed.

(** ** The order of strings, and sorting *)

Lemma nat_of_ascii_inj (x y : ascii) : nat_of_ascii x = nat_of_ascii y -> x = y.
Proof.
  intro H. rewrite <- (ascii_nat_embedding x), <- (ascii_nat_embedding y). now rewrite H.
Qed.

Lemma str_ltb_irrefl (a : str) : str_ltb a a = false.
Proof.
  induction a as [|x a IH]; simpl; [reflexivity|]. now rewrite Nat.ltb_irrefl.
Qed.

Lemma str_ltb_trans (a b c : str) :
  str_ltb a b = true -> str_ltb b c = true -> str_ltb a c = true.
Proof.
  revert b c; induction a as [|x a IH]; intros [|y b] [|z c]; simpl;
    try discriminate; try reflexivity.
  destruct (Nat.ltb_spec (nat_of_ascii x) (nat_of_ascii y));
    destruct (Nat.ltb_spec (nat_of_ascii y) (nat_of_ascii x));
    destruct (Nat.ltb_spec (nat_of_ascii y) (nat_of_ascii z));
    destruct (Nat.ltb_spec (nat_of_ascii z) (nat_of_ascii y));
    destruct (Nat.ltb_spec (nat_of_ascii x) (nat_of_ascii z));
    destruct (Nat.ltb_spec (nat_of_ascii z) (nat_of_ascii x));
    try discriminate; try reflexivity; try lia.
  apply IH.
Qed.

Lemma str_ltb_total (a b : str) :
  a <> b -> str_ltb a b = false -> str_ltb b a = true.
Proof.
  revert b; induction a as [|x a IH]; intros [|y b]; simpl; try congruence;
    try reflexivity.
  intros Hne.
  destruct (Nat.ltb_spec (nat_of_ascii x) (nat_of_ascii y));
    destruct (Nat.ltb_spec (nat_of_ascii y) (nat_of_ascii x));
    try discriminate; try reflexivity; try lia.
  assert (x = y) by (apply nat_of_ascii_inj; lia). subst y.
  apply IH. congruence.
Qed.

Lemma str_le_trans (a b c : str) :
  str_ltb b a = false -> str_ltb c b = false -> str_ltb c a = false.
Proof.
  intros Hab Hbc. destruct (str_ltb c a) eqn:E; [|reflexivity].
  destruct (list_eq_dec ascii_dec a b) as [->|Hne]; [congruence|].
  pose proof (str_ltb_total b a (fun H => Hne (eq_sym H)) Hab) as Hlt.
  rewrite (str_ltb_trans c a b E Hlt) in Hbc. discriminate.
Qed.

Lemma insert_sorted_perm (x : str) (l : list str) :
  Permutation (insert_sorted x l) (x :: l).
Proof.
  induction l as [|y l IH]; simpl; [reflexivity|].
  destruct (str_ltb y x); [|reflexivity].
  rewrite IH. apply perm_swap.
Qed.

Lemma sort_strs_perm (l : list str) : Permutation (sort_strs l) l.
Proof.
  induction l as [|x l IH]; simpl; [reflexivity|].
  rewrite insert_sorted_perm. now constructor.
Qed.

Lemma insert_sorted_sorted (x : str) (l : list str) :
  StronglySorted (fun a b => str_ltb b a = false) l ->
  StronglySorted (fun a b => str_ltb b a = false) (insert_sorted x l).
Proof.
  induction 1 as [|y l Hs IH Hy]; simpl.
  - repeat constructor.
  - destruct (str_ltb y x) eqn:E.
    + constructor; [exact IH|].
      rewrite Forall_forall in *. intros z Hz.
      apply (Permutation_in _ (insert_sorted_perm x l)) in Hz.
      destruct Hz as [<-|Hz]; [|now apply Hy].
      destruct (str_ltb x y) eqn:E'; [|reflexivity].
      pose proof (str_ltb_trans x y x E' E) as C. rewrite str_ltb_irrefl in C. discriminate.
    + constructor; [now constructor|].
      constructor; [exact E|].
      rewrite Forall_forall in *. intros z Hz. apply (str_le_trans x y z E). now apply Hy.
Qed.

Lemma sort_strs_sorted (l : list str) :
  StronglySorted (fun a b => str_ltb b a = false) (sort_strs l).
Proof.
  induction l as [|x l IH]; simpl; [constructor | now apply insert_sorted_sorted].
Qed.

Lemma sorted_strict (l : list str) :
  NoDup l ->
  StronglySorted (fun a b => str_ltb b a = false) l ->
  StronglySorted (fun a b => str_ltb a b = true) l.
Proof.
  intros Hn Hs. induction Hs as [|x l Hs IH Hx]; [constructor|].
  inversion Hn as [|? ? Hnot Hn']; subst.
  constructor; [now apply IH|].
  rewrite Forall_forall in *. intros y Hy.
  apply str_ltb_total; [|now apply Hx]. intros ->. contradiction.
Qed.

Lemma sort_strs_strict (l : list str) :
  NoDup l -> StronglySorted (fun a b => str_ltb a b = true) (sort_strs l).
Proof.
  intro H. apply sorted_strict; [|apply sort_strs_sorted].
  apply (Permutation_NoDup (Permutation_sym (sort_strs_perm l)) H).
Qed.

(** ** Labels as elapsed time *)

Lemma digit_code (c : ascii) :
  is_digit c = true -> nat_of_ascii c = 48 + digit_value c /\ digit_value c <= 9.
Proof.
  unfold is_digit, digit_value. intro H. apply andb_true_iff in H as [H1 H2].
  apply Nat.leb_le in H1, H2. lia.
Qed.

Lemma clock_order (t1 t2 : str) :
  clock_label t1 -> clock_label t2 ->
  (str_ltb t1 t2 = true <-> seconds_of t1 < seconds_of t2).
Proof.
  intros [(a & b & c & d & e & f & -> & Ha & Hb & Hc & Hd & He & Hf) [Hc6 He6]]
         [(a' & b' & c' & d' & e' & f' & -> & Ha' & Hb' & Hc' & Hd' & He' & Hf') [Hc6' He6']].
  apply digit_code in Ha as [Ea La], Hb as [Eb Lb], Hc as [Ec Lc], Hd as [Ed Ld],
      He as [Ee Le], Hf as [Ef Lf], Ha' as [Ea' La'], Hb' as [Eb' Lb'], Hc' as [Ec' Lc'],
      Hd' as [Ed' Ld'], He' as [Ee' Le'], Hf' as [Ef' Lf'].
  cbn [seconds_of str_ltb].
  rewrite Ea, Eb, Ec, Ed, Ee, Ef, Ea', Eb', Ec', Ed', Ee', Ef'.
  change (nat_of_ascii ":") with 58. rewrite Nat.ltb_irrefl.
  repeat match goal with
         | |- context [(?x <? ?y)%nat] => destruct (Nat.ltb_spec x y)
         end;
    split; intro Hgoal; try discriminate; try reflexivity; try lia.
Qed.

(** ** What each tab method adds *)



Lemma change_widget_pushed (w : MainWindow) (a : str) (b : option str)
    (c : option standard_pixmap) (x : widget) (f : widget -> widget) :
  change_widget (next_widget w) f (pushed w a b c x) = Done tt (pushed w a b c (f x)).
Proof.
  unfold change_widget, pushed, with_widgets. simpl. now rewrite Nat.eqb_refl.
Qed.

Lemma indexOf_pushed (w : MainWindow) (a : str) (b : option str)
    (c : option standard_pixmap) (x : widget) :
  fresh w ->
  indexOf (next_widget w) (pushed w a b c x) =
  Done (Some (length (tab_widget w))) (pushed w a b c x).
Proof.
  intro H. apply index_of_fresh in H. unfold indexOf, ui_gets, pushed. simpl.
  now rewrite (index_of_last _ _ a b c H).
Qed.

Lemma setTabIcon_pushed (w : MainWindow) (a : str) (b : option str)
    (c : option standard_pixmap) (x : widget) (icon : standard_pixmap) :
  setTabIcon (Some (length (tab_widget w))) icon (pushed w a b c x) =
  Done tt (pushed w a b (Some icon) x).
Proof.
  unfold setTabIcon, change_tab, pushed, with_tabs. simpl. now rewrite change_nth_last.
Qed.

Lemma add_rows_nil (x : widget) : add_rows [] x = x.
Proof.
  destruct x as [cl [[hv hh sg hd rs]|] ed]; unfold add_rows; simpl;
    [now rewrite app_nil_r | reflexivity].
Qed.

Lemma add_rows_cons (r : list (option str)) (rs : list (list (option str))) (x : widget) :
  add_rows rs (add_rows [r] x) = add_rows (r :: rs) x.
Proof.
  destruct x as [cl [[hv hh sg hd rs0]|] ed]; unfold add_rows; simpl;
    [now rewrite <- app_assoc | reflexivity].
Qed.

Lemma for_in_appendRow_pushed {A : Type} (g : A -> list (option str)) (l : list A)
    (w : MainWindow) (a : str) (b : option str) (c : option standard_pixmap) (x : widget) :
  for_in l (fun i => appendRow (next_widget w) (g i)) (pushed w a b c x) =
  Done tt (pushed w a b c (add_rows (map g l) x)).
Proof.
  revert x; induction l as [|i l IH]; intro x; simpl.
  - now rewrite add_rows_nil.
  - unfold ui_bind, appendRow, change_view. rewrite change_widget_pushed.
    rewrite IH. now rewrite <- add_rows_cons.
Qed.

Lemma set_render_time_tab_adds :
  adds set_render_time_tab (fun _ => True) render_time_tab.
Proof.
  intros w Hw _. unfold set_render_time_tab, render_time_tab, ui_bind, ui_gets.
  destruct (render_time (model w)) as [[|c t]|].
  - exists w. rewrite app_nil_r. now repeat split.
  - rewrite (new_tab_run _ _ w Hw). unfold add_text_to_widget.
    rewrite change_widget_pushed. eexists. split; [reflexivity|].
    split; [now apply pushed_fresh|]. do 3 (split; [reflexivity|]).
    now rewrite pushed_shown.
  - exists w. rewrite app_nil_r. now repeat split.
Qed.

Lemma entries_tab_run (title color : str) (icon : standard_pixmap) (es : list str)
    (w : MainWindow) :
  fresh w -> es <> [] -> color <> [] ->
  (page <- new_table (title ++ " (" ++ str_of_nat (length es) ++ ")")
                     true true false (Some color) ;;
   for_in es (fun e => appendRow page [Some e]) ;;
   i <- indexOf page ;;
   set_icon icon i) w =
  Done tt (pushed w (title ++ " (" ++ str_of_nat (length es) ++ ")") (Some color)
                  (Some icon)
                  (mkWidget QTableWidget
                     (Some (mkTableView true true true [] (map (fun e => [Some e]) es)))
                     [])).
Proof.
  intros Hw Hes Hc. unfold ui_bind. rewrite (new_table_run _ _ _ _ _ w Hw).
  rewrite for_in_appendRow_pushed, (indexOf_pushed _ _ _ _ _ Hw).
  unfold set_icon. rewrite setTabIcon_pushed.
  destruct color; [congruence | reflexivity].
Qed.

Lemma entries_tab_adds (title color : str) (icon : standard_pixmap)
    (field : LogBrowserModel -> list str) (c : UI unit) :
  color <> [] ->
  (forall w, c w =
             match field (model w) with
             | [] => Done tt w
             | _ :: _ =>
                 (page <- new_table (title ++ " (" ++ str_of_nat (length (field (model w)))
                                           ++ ")")
                                    true true false (Some color) ;;
                  for_in (field (model w)) (fun e => appendRow page [Some e]) ;;
                  i <- indexOf page ;;
                  set_icon icon i) w
             end) ->
  adds c (fun _ => True) (fun m => entries_tab title color icon (field m)).
Proof.
  intros Hc Hrun w Hw _. rewrite Hrun. unfold entries_tab.
  destruct (field (model w)) as [|e es] eqn:E.
  - exists w. rewrite app_nil_r. now repeat split.
  - rewrite (entries_tab_run title color icon (e :: es) w Hw); [|discriminate|exact Hc].
    eexists. split; [reflexivity|]. split; [now apply pushed_fresh|].
    do 3 (split; [reflexivity|]). now rewrite pushed_shown.
Qed.

Lemma set_warnings_tab_adds :
  adds set_warnings_tab (fun _ => True)
       (fun m => entries_tab "Warnings" "orange" SP_MessageBoxWarning (warnings m)).
Proof.
  apply entries_tab_adds; [discriminate|].
  intro w. unfold set_warnings_tab, ui_bind at 1, ui_gets.
  now destruct (warnings (model w)).
Qed.

Lemma set_errors_tab_adds :
  adds set_errors_tab (fun _ => True)
       (fun m => entries_tab "Errors" "red" SP_MessageBoxCritical (errors m)).
Proof.
  apply entries_tab_adds; [discriminate|].
  intro w. unfold set_errors_tab, ui_bind at 1, ui_gets.
  now destruct (errors (model w)).
Qed.

Lemma str_keys_labels (d : dict) (ss : list str) :
  str_keys (keys d) = Some ss -> ss = labels d.
Proof.
  revert ss; induction d as [|[[t|] v] d IH]; intros ss H; simpl in *.
  - now injection H as <-.
  - destruct (str_keys (keys d)) as [ss'|]; [|discriminate].
    injection H as <-. simpl. f_equal. now apply IH.
  - discriminate.
Qed.

Lemma str_keys_all (d : dict) :
  Forall (fun kv => exists t, fst kv = Some t) d ->
  str_keys (keys d) = Some (labels d).
Proof.
  induction 1 as [|[k v] d [t Ht] _ IH]; [reflexivity|].
  cbn [fst] in Ht. subst k.
  change (str_keys (keys ((Some t, v) :: d)))
    with (option_map (cons t) (str_keys (keys d))).
  rewrite IH. reflexivity.
Qed.

Lemma set_memory_usage_tab_adds :
  adds set_memory_usage_tab
       (fun m => Forall (fun kv => exists t, fst kv = Some t) (memory_usage m))
       memory_usage_tab.
Proof.
  intros w Hw Hok. unfold set_memory_usage_tab, memory_usage_tab, ui_bind at 1, ui_gets.
  destruct (memory_usage (model w)) as [|kv d] eqn:E.
  - exists w. rewrite app_nil_r. now repeat split.
  - unfold ui_bind. rewrite (new_table_run _ _ _ _ _ w Hw).
    unfold sorted. rewrite (str_keys_all _ Hok). cbn [ui_lift ui_ret].
    unfold setHorizontalHeaderLabels, change_view. rewrite change_widget_pushed.
    rewrite for_in_appendRow_pushed.
    eexists. split; [reflexivity|]. split; [now apply pushed_fresh|].
    do 3 (split; [reflexivity|]). rewrite pushed_shown by exact Hw.
    rewrite map_map. reflexivity.
Qed.

Lemma adds_seq (c1 c2 : UI unit) (ok1 ok2 : LogBrowserModel -> Prop)
    (p1 p2 : LogBrowserModel -> list shown_tab) :
  adds c1 ok1 p1 -> adds c2 ok2 p2 ->
  adds (c1 ;; c2) (fun m => ok1 m /\ ok2 m) (fun m => p1 m ++ p2 m).
Proof.
  intros H1 H2 w Hw [Hok1 Hok2].
  destruct (H1 w Hw Hok1) as (w1 & R1 & F1 & M1 & T1 & S1 & Sh1).
  rewrite <- M1 in Hok2.
  destruct (H2 w1 F1 Hok2) as (w2 & R2 & F2 & M2 & T2 & S2 & Sh2).
  exists w2. unfold ui_bind. rewrite R1, R2.
  split; [reflexivity|]. split; [exact F2|].
  split; [congruence|]. split; [congruence|]. split; [congruence|].
  rewrite Sh2, Sh1, M1. now rewrite app_assoc.
Qed.

Lemma all_tabs_add :
  adds (set_render_time_tab ;; set_memory_usage_tab ;; set_warnings_tab ;; set_errors_tab)
       (fun m => Forall (fun kv => exists t, fst kv = Some t) (memory_usage m))
       tabs_for.
Proof.
  intros w Hw Hok.
  apply (adds_seq _ _ _ _ _ _ set_render_time_tab_adds
           (adds_seq _ _ _ _ _ _ set_memory_usage_tab_adds
              (adds_seq _ _ _ _ _ _ set_warnings_tab_adds set_errors_tab_adds)));
    [exact Hw | tauto].
Qed.

(** ** The window after a load *)

Lemma parsed_keys_are_strings (lines : list str) :
  Forall (fun kv => exists t, fst kv = Some t)
         (memory_usage (run lines (loaded lines))).
Proof.
  apply Forall_forall. intros kv H.
  apply stored_pair_origin in H as (line & t & _ & Hk & _). now exists t.
Qed.

Lemma set_tabs_run (w : os) (file_path content : str) (w1 : MainWindow) :
  fs w file_path = Readable content ->
  tab_widget w1 = [] -> model w1 = new_model ->
  exists w',
    set_tabs w file_path w1 = Done tt w' /\
    model w' = run (readlines content) (loaded (readlines content)) /\
    shown w' = tabs_for (model w') /\
    file_path_edit_text w' = file_path /\
    file_path_edit_style w' = file_path_edit_style w1.
Proof.
  intros Hfs Htabs Hm.
  unfold set_tabs. unfold ui_bind at 1. unfold setText.
  unfold ui_bind at 1. unfold on_model at 1.
  cbn [model]. rewrite Hm. unfold store_raw_log. rewrite Hfs.
  unfold set_raw_log, modify. cbn [raw_log render_time memory_usage warnings errors new_model].
  unfold ui_bind at 1. unfold on_model at 1. unfold with_model at 1. cbn [model].
  rewrite parse_log_run. cbn [raw_log].
  fold (loaded (readlines content)).
  set (w3 := with_model _ _).
  assert (fresh w3) as F3.
  { unfold fresh, w3, with_model. cbn [tab_widget]. rewrite Htabs. constructor. }
  assert (model w3 = run (readlines content) (loaded (readlines content))) as M3
      by reflexivity.
  destruct (all_tabs_add w3 F3) as (w' & R & _ & M & T & S & Sh).
  { rewrite M3. apply parsed_keys_are_strings. }
  exists w'. split; [exact R|]. split; [congruence|].
  split; [|split].
  - rewrite Sh, M. unfold shown, w3, with_model. cbn [tab_widget]. now rewrite Htabs.
  - rewrite T. reflexivity.
  - rewrite S. reflexivity.
Qed.

(** X9.  [clean_window_and_stored_data] removes every tab, however many
    are open, turns the path field white, empties the model and keeps the
    text of the path field; a cancelled dialog leaves the window so. *)
Theorem X9_clean_window_removes_every_tab :
  forall (w : os) (w0 : MainWindow),
    exists w',
      clean_window_and_stored_data w0 = Done tt w' /\
      tab_widget w' = [] /\
      model w' = new_model /\
      file_path_edit_style w' = white_sheet /\
      file_path_edit_text w' = file_path_edit_text w0 /\
      browse_on_click w [] w0 = Done tt w'.
Proof.
  intros w w0. eexists. rewrite clean_window_run. split; [reflexivity|].
  do 4 (split; [reflexivity|]).
  unfold browse_on_click, ui_bind. now rewrite clean_window_run.
Qed.

(** X10.  After a readable file is loaded, from the dialog or (with the
    extension ".log") from the path field, the window has exactly the
    tabs of the parse of the file's lines, in the order render time,
    memory usage, warnings, errors, and none of the tabs it had before;
    the path field holds the path, on white; nothing is raised.  The
    Render Time tab holds "Render done in: " and the time as plain text
    when the time has no [<] and no [&]; otherwise the edit is given
    this text and Qt may read it as HTML. *)
Theorem X10_loaded_window_shows_the_parse :
  forall (w : os) (file_path content : str) (w0 : MainWindow),
    fs w file_path = Readable content ->
    (file_path <> [] ->
     exists w' m,
       browse_on_click w file_path w0 = Done tt w' /\
       parse (readlines content) (model w0) = Return tt m /\
       model w' = m /\ shown w' = tabs_for m /\
       file_path_edit_text w' = file_path /\
       file_path_edit_style w' = white_sheet) /\
    (file_path_edit_text w0 = file_path -> splitext_ext w file_path = ".log" ->
     exists w' m,
       browse_on_key_pressed w w0 = Done tt w' /\
       parse (readlines content) (model w0) = Return tt m /\
       model w' = m /\ shown w' = tabs_for m /\
       file_path_edit_text w' = file_path /\
       file_path_edit_style w' = white_sheet).
Proof.
  intros w file_path content w0 Hfs.
  destruct (set_tabs_run w file_path content
              (mkWindow new_model [] (widgets w0) (next_widget w0)
                        (file_path_edit_text w0) white_sheet)
              Hfs eq_refl eq_refl) as (w' & R & M & Sh & T & S).
  split.
  - intro Hne. exists w', (run (readlines content) (loaded (readlines content))).
    rewrite parse_run.
    assert (browse_on_click w file_path w0 =
            set_tabs w file_path
                     (mkWindow new_model [] (widgets w0) (next_widget w0)
                               (file_path_edit_text w0) white_sheet)) as ->.
    { unfold browse_on_click, ui_bind. rewrite clean_window_run.
      destruct file_path; [congruence | reflexivity]. }
    split; [exact R|]. split; [reflexivity|]. split; [exact M|].
    split; [now rewrite <- M|]. split; [exact T | exact S].
  - intros Htext Hext.
    exists w', (run (readlines content) (loaded (readlines content))).
    rewrite parse_run.
    assert (browse_on_key_pressed w w0 =
            set_tabs w file_path
                     (mkWindow new_model [] (widgets w0) (next_widget w0)
                               (file_path_edit_text w0) white_sheet)) as ->.
    { unfold browse_on_key_pressed, ui_bind. rewrite clean_window_run.
      unfold ui_gets. cbn [file_path_edit_text]. rewrite Htext.
      unfold path_exists. rewrite Hfs, Hext.
      assert (str_eqb ".log" ".log" = true) as -> by reflexivity.
      reflexivity. }
    split; [exact R|]. split; [reflexivity|]. split; [exact M|].
    split; [now rewrite <- M|]. split; [exact T | exact S].
Qed.

Lemma X10_loaded_window_shows_the_parse_witness :
  exists w' m,
    browse_on_click (mkOs (fun _ => Readable "WARNING: a | render done in <b>5s</b>")
                          (fun _ => ".log"))
                    "r.log" new_window = Done tt w' /\
    parse (readlines "WARNING: a | render done in <b>5s</b>") (model new_window)
    = Return tt m /\
    model w' = m /\ shown w' = tabs_for m /\
    file_path_edit_text w' = ("r.log" : str) /\
    file_path_edit_style w' = white_sheet.
Proof.
  apply (proj1 (X10_loaded_window_shows_the_parse
                  (mkOs (fun _ => Readable "WARNING: a | render done in <b>5s</b>")
                        (fun _ => ".log"))
                  "r.log" "WARNING: a | render done in <b>5s</b>" new_window eq_refl)).
  discriminate.
Defined.

Lemma dict_get_member (d : dict) (k : key) (v : str) :
  NoDup (keys d) -> In (k, v) d -> dict_get d k = Some v.
Proof.
  induction d as [|[k' v'] d IH]; simpl; intros Hn H; [contradiction|].
  inversion Hn as [|? ? Hnot Hn']; subst.
  destruct H as [H|H].
  - injection H as -> ->.
    assert (key_eqb k k = true) as -> by now apply key_eqb_eq. reflexivity.
  - destruct (key_eqb k k') eqn:E.
    + apply key_eqb_eq in E. subst k'. exfalso. apply Hnot.
      unfold keys. apply in_map_iff. now exists (k, v).
    + now apply IH.
Qed.

Lemma labels_keys (d : dict) :
  Forall (fun kv => exists t, fst kv = Some t) d -> map Some (labels d) = keys d.
Proof.
  induction 1 as [|[k v] d [t Ht] _ IH]; [reflexivity|].
  cbn [fst] in Ht. subst k. unfold labels, keys in *. simpl. now rewrite IH.
Qed.

Lemma labels_NoDup (d : dict) :
  Forall (fun kv => exists t, fst kv = Some t) d -> NoDup (keys d) -> NoDup (labels d).
Proof.
  intros Hs Hn. rewrite <- (labels_keys d Hs) in Hn.
  now apply NoDup_map_inv in Hn.
Qed.


Lemma labels_pairs (d : dict) :
  Forall (fun kv => exists t, fst kv = Some t) d -> NoDup (keys d) ->
  map (fun t => (Some t, usage_of d t)) (labels d) = d.
Proof.
  intros Hs Hn. induction d as [|[k v] d IH]; [reflexivity|].
  inversion Hs as [|? ? [t Ht] Hs']; subst. cbn [fst] in Ht. subst k.
  inversion Hn as [|? ? Hnot Hn']; subst.
  change (labels ((Some t, v) :: d)) with (t :: labels d). cbn [map].
  f_equal.
  - unfold usage_of. simpl.
    assert (str_eqb t t = true) as -> by now apply str_eqb_eq. reflexivity.
  - rewrite <- (IH Hs' Hn') at 2. apply map_ext_in. intros t' Ht'.
    unfold usage_of. simpl.
    destruct (str_eqb t' t) eqn:E; [|reflexivity].
    apply str_eqb_eq in E. subst t'. exfalso. apply Hnot.
    rewrite <- (labels_keys d Hs'). now apply in_map.
Qed.

Lemma labels_present (d : dict) (t : str) :
  Forall (fun kv => exists t, fst kv = Some t) d -> NoDup (keys d) ->
  In t (labels d) -> dict_get d (Some t) = Some (usage_of d t).
Proof.
  intros Hs Hn Ht. apply dict_get_member; [exact Hn|].
  rewrite <- (labels_pairs d Hs Hn) at 2.
  apply in_map_iff. now exists t.
Qed.

Lemma StronglySorted_map {A B : Type} (R : A -> A -> Prop) (R' : B -> B -> Prop)
    (f : A -> B) (l : list A) :
  (forall a b, R a b -> R' (f a) (f b)) ->
  StronglySorted R l -> StronglySorted R' (map f l).
Proof.
  intros H Hs. induction Hs as [|x l Hs IH Hx]; simpl; constructor; [exact IH|].
  rewrite Forall_forall in *. intros y Hy.
  apply in_map_iff in Hy as (z & <- & Hz). now apply H, Hx.
Qed.

Lemma StronglySorted_impl_in {A : Type} (R R' : A -> A -> Prop) (l : list A) :
  (forall a b, In a l -> In b l -> R a b -> R' a b) ->
  StronglySorted R l -> StronglySorted R' l.
Proof.
  intros H Hs. induction Hs as [|x l Hs IH Hx]; constructor.
  - apply IH. intros a b Ha Hb. apply H; now right.
  - rewrite Forall_forall in *. intros y Hy.
    apply H; [now left | now right | now apply Hx].
Qed.

(** X11.  On a parsed model that has memory samples, the Memory Usage
    tab gets a table of two columns whose rows are the stored pairs,
    each exactly once, in strictly increasing order of the time label
    as strings compare; no row holds [None]. *)
Theorem X11_memory_usage_table_sorted :
  forall (m0 : LogBrowserModel) (lines : list str) (w : MainWindow),
    fresh w ->
    parse lines m0 = Return tt (model w) ->
    memory_usage (model w) <> [] ->
    exists w' (items : list (str * str)),
      set_memory_usage_tab w = Done tt w' /\
      shown w' =
      shown w ++
      [("Memory Usage" : str, None, None,
        Some (mkWidget QTableWidget
                (Some (mkTableView true false true
                         ["Time Elapsed" : str; "Memory usage at that stage" : str]
                         (map (fun kv => [Some (fst kv); Some (snd kv)]) items)))
                []))] /\
      Permutation (map (fun kv => (Some (fst kv), snd kv)) items)
                  (memory_usage (model w)) /\
      StronglySorted (fun a b => str_ltb (fst a) (fst b) = true) items.
Proof.
  intros m0 lines w Hw Hp Hne. rewrite parse_run in Hp. injection Hp as Hm.
  assert (Forall (fun kv => exists t, fst kv = Some t) (memory_usage (model w))) as Hs.
  { rewrite <- Hm. apply parsed_keys_are_strings. }
  assert (NoDup (keys (memory_usage (model w)))) as Hn.
  { rewrite <- Hm, memory_usage_parse. apply first_wins_NoDup. }
  destruct (set_memory_usage_tab_adds w Hw Hs) as (w' & R & _ & _ & _ & _ & Sh).
  set (d := memory_usage (model w)) in *.
  exists w', (map (fun t => (t, usage_of d t)) (sort_strs (labels d))).
  split; [exact R|]. split; [|split].
  - rewrite Sh. f_equal. unfold memory_usage_tab. fold d.
    destruct d as [|kv d'] eqn:Ed; [congruence|]. rewrite <- Ed in *.
    rewrite map_map. cbn [fst snd].
    assert (map (fun t => [Some t; dict_get d (Some t)]) (sort_strs (labels d)) =
            map (fun t => [Some t; Some (usage_of d t)]) (sort_strs (labels d))) as ->;
      [|reflexivity].
    apply map_ext_in. intros t Ht. f_equal. f_equal.
    apply labels_present; trivial.
    now apply (Permutation_in _ (sort_strs_perm (labels d))).
  - rewrite map_map. cbn [fst snd].
    rewrite <- (labels_pairs d Hs Hn) at 2.
    apply Permutation_map, sort_strs_perm.
  - apply (StronglySorted_map (fun a b => str_ltb a b = true)); [trivial|].
    apply sort_strs_strict. now apply labels_NoDup.
Qed.

Lemma X11_memory_usage_table_sorted_witness :
  exists w' (items : list (str * str)),
    set_memory_usage_tab
      (with_model (run ["00:02:00 5MB |" : str; "00:00:10 7MB |" : str]
                       (loaded ["00:02:00 5MB |" : str; "00:00:10 7MB |" : str]))
                  new_window) = Done tt w' /\
    shown w' =
    shown (with_model (run ["00:02:00 5MB |" : str; "00:00:10 7MB |" : str]
                           (loaded ["00:02:00 5MB |" : str; "00:00:10 7MB |" : str]))
                      new_window) ++
    [("Memory Usage" : str, None, None,
      Some (mkWidget QTableWidget
              (Some (mkTableView true false true
                       ["Time Elapsed" : str; "Memory usage at that stage" : str]
                       (map (fun kv => [Some (fst kv); Some (snd kv)]) items)))
              []))] /\
    Permutation (map (fun kv => (Some (fst kv), snd kv)) items)
                (memory_usage
                   (model (with_model
                             (run ["00:02:00 5MB |" : str; "00:00:10 7MB |" : str]
                                  (loaded ["00:02:00 5MB |" : str; "00:00:10 7MB |" : str]))
                             new_window))) /\
    StronglySorted (fun a b => str_ltb (fst a) (fst b) = true) items.
Proof.
  apply (X11_memory_usage_table_sorted new_model
           ["00:02:00 5MB |" : str; "00:00:10 7MB |" : str]).
  - constructor.
  - apply parse_run.
  - vm_compute. discriminate.
Defined.

(** X12.  [sorted] puts distinct time labels whose minutes and seconds
    are below 60 in the order of elapsed time: its result has the same
    labels, each later one more seconds after the start. *)
Theorem X12_sorted_labels_are_chronological :
  forall l : list str,
    NoDup l -> Forall clock_label l ->
    exists s,
      sorted (map Some l) = inr (map Some s) /\
      Permutation s l /\
      StronglySorted (fun a b => seconds_of a < seconds_of b) s.
Proof.
  intros l Hn Hc. exists (sort_strs l).
  assert (str_keys (map Some l) = Some l) as E.
  { clear. induction l as [|x l IH]; simpl; [reflexivity | now rewrite IH]. }
  split; [unfold sorted; now rewrite E|].
  split; [apply sort_strs_perm|].
  apply (StronglySorted_impl_in (fun a b => str_ltb a b = true));
    [|now apply sort_strs_strict].
  intros a b Ha Hb Hab. rewrite Forall_forall in Hc.
  apply clock_order; trivial; apply Hc;
    now apply (Permutation_in _ (sort_strs_perm l)).
Qed.

Lemma clock_label_by_digits (a b c d e f : ascii) :
  is_digit a && is_digit b && is_digit c && is_digit d && is_digit e && is_digit f
  && (digit_value c <? 6)%nat && (digit_value e <? 6)%nat = true ->
  clock_label [a; b; ":"%char; c; d; ":"%char; e; f].
Proof.
  intro H. do 7 (apply andb_true_iff in H as [H ?]).
  split.
  - exists a, b, c, d, e, f.
    repeat (split; [first [reflexivity | assumption]|]). assumption.
  - split; now apply Nat.ltb_lt.
Qed.

Lemma X12_sorted_labels_are_chronological_witness :
  exists s,
    sorted (map Some ["00:02:00" : str; "00:00:10" : str; "00:01:00" : str])
    = inr (map Some s) /\
    Permutation s ["00:02:00" : str; "00:00:10" : str; "00:01:00" : str] /\
    StronglySorted (fun a b => seconds_of a < seconds_of b) s.
Proof.
  apply (X12_sorted_labels_are_chronological
           ["00:02:00" : str; "00:00:10" : str; "00:01:00" : str]).
  - repeat constructor; simpl; intuition discriminate.
  - repeat constructor; apply clock_label_by_digits; reflexivity.
Defined.

(** X13.  When the path in the path field does not exist or does not end
    in ".log", the window shows one tab only, a red "ERROR" tab with the
    request for an existing .log file, in red and as plain text; the path
    field turns red and keeps its text, and the model is empty. *)
Theorem X13_wrong_path_shows_the_error_tab :
  forall (w : os) (w0 : MainWindow),
    path_exists w (file_path_edit_text w0) = false \/
    splitext_ext w (file_path_edit_text w0) <> ".log" ->
    exists w',
      browse_on_key_pressed w w0 = Done tt w' /\
      shown w' =
      [("ERROR" : str, Some ("red" : str), None,
        Some (mkWidget QTabWidget None
                [mkTextEdit (Some ("red" : str))
                            (PlainText "Please select an existing .log file")]))] /\
      model w' = new_model /\
      file_path_edit_style w' = red_sheet /\
      file_path_edit_text w' = file_path_edit_text w0.
Proof.
  intros w w0 H.
  assert (negb (path_exists w (file_path_edit_text w0) &&
                str_eqb (splitext_ext w (file_path_edit_text w0)) ".log") = true) as E.
  { destruct H as [H|H]; [now rewrite H|].
    destruct (str_eqb (splitext_ext w (file_path_edit_text w0)) ".log") eqn:E.
    - apply str_eqb_eq in E. contradiction.
    - now rewrite andb_false_r. }
  unfold browse_on_key_pressed, ui_bind. rewrite clean_window_run.
  unfold ui_gets. cbn [file_path_edit_text]. rewrite E.
  set (w1 := mkWindow _ _ _ _ _ _).
  assert (fresh w1) as F by constructor.
  unfold wrong_file_path, ui_bind. rewrite (new_tab_run _ _ w1 F).
  unfold add_text_to_widget. rewrite change_widget_pushed.
  eexists. split; [reflexivity|]. split; [|now repeat split].
  unfold setStyleSheet. unfold shown. cbn. now rewrite Nat.eqb_refl.
Qed.

Lemma X13_wrong_path_shows_the_error_tab_witness :
  exists w',
    browse_on_key_pressed (mkOs (fun _ => Missing) (fun _ => [])) new_window = Done tt w' /\
    shown w' =
    [("ERROR" : str, Some ("red" : str), None,
      Some (mkWidget QTabWidget None
              [mkTextEdit (Some ("red" : str))
                          (PlainText "Please select an existing .log file")]))] /\
    model w' = new_model /\
    file_path_edit_style w' = red_sheet /\
    file_path_edit_text w' = file_path_edit_text new_window.
Proof.
  apply (X13_wrong_path_shows_the_error_tab
           (mkOs (fun _ => Missing) (fun _ => [])) new_window).
  left. reflexivity.
Defined.

(** X14.  When the file chosen cannot be opened, the error of [open] is
    raised out of the load with no tab shown, not the "ERROR" tab
    either: the old tabs are gone, the model is empty, and the path
    field already holds the path, on white.  The same happens for a path
    typed in the path field that exists, ends in ".log" and cannot be
    opened. *)
Theorem X14_unreadable_file_raises_with_no_tab :
  forall (w : os) (file_path : str) (w0 : MainWindow),
    fs w file_path = Missing \/ fs w file_path = Unreadable ->
    (file_path <> [] ->
     exists w',
       browse_on_click w file_path w0 = Failed (ModelError OSError) w' /\
       tab_widget w' = [] /\ model w' = new_model /\
       file_path_edit_text w' = file_path /\
       file_path_edit_style w' = white_sheet) /\
    (fs w file_path = Unreadable ->
     file_path_edit_text w0 = file_path -> splitext_ext w file_path = ".log" ->
     exists w',
       browse_on_key_pressed w w0 = Failed (ModelError OSError) w' /\
       tab_widget w' = [] /\ model w' = new_model /\
       file_path_edit_text w' = file_path /\
       file_path_edit_style w' = white_sheet).
Proof.
  intros w file_path w0 H.
  assert (forall w1 : MainWindow,
             set_tabs w file_path w1 =
             Failed (ModelError OSError)
                    (mkWindow (model w1) (tab_widget w1) (widgets w1) (next_widget w1)
                              file_path (file_path_edit_style w1))) as Hset.
  { intro w1. unfold set_tabs, ui_bind, setText, on_model, store_raw_log. cbn [model].
    destruct H as [H|H]; rewrite H; reflexivity. }
  split.
  - intro Hne. eexists. unfold browse_on_click, ui_bind. rewrite clean_window_run.
    destruct file_path as [|c p]; [congruence|]. rewrite Hset.
    now repeat split.
  - intros Hu Htext Hext. eexists.
    unfold browse_on_key_pressed, ui_bind. rewrite clean_window_run.
    unfold ui_gets. cbn [file_path_edit_text]. rewrite Htext.
    unfold path_exists. rewrite Hu, Hext.
    assert (str_eqb ".log" ".log" = true) as -> by reflexivity.
    cbn [andb negb]. rewrite Hset. now repeat split.
Qed.

Lemma X14_unreadable_file_raises_with_no_tab_witness :
  exists w',
    browse_on_click (mkOs (fun _ => Unreadable) (fun _ => ".log")) "r.log" new_window
    = Failed (ModelError OSError) w' /\
    tab_widget w' = [] /\ model w' = new_model /\
    file_path_edit_text w' = ("r.log" : str) /\
    file_path_edit_style w' = white_sheet.
Proof.
  apply (proj1 (X14_unreadable_file_raises_with_no_tab
                  (mkOs (fun _ => Unreadable) (fun _ => ".log")) "r.log" new_window
                  (or_intror eq_refl))).
  discriminate.
Defined.
